(** * Inquestor: a shallow embedding of [src/app/page.tsx]

    The page is one React client component.  Definitions come first:

    - [Typewriter]  the character reveal of [Typewriter] (lines 56-82);
    - [Js]          the JavaScript values and built-ins the page relies on:
                    JSON values, truthiness, property access, object spread,
                    [JSON.parse], the two [replace] calls that strip the
                    code fence, [trim];
    - [Pdf]         the layout of [downloadPdf] (lines 195-236) as the
                    sequence of calls made on the jsPDF document;
    - [App]         the state of [App], [startResearch] (lines 106-185),
                    the guard of [downloadPdf] (lines 187-193), the submit
                    controls, and the page as a transition system;
    - [Sample]      data for the worked cases.

    - [JsonShape]   the last character of a JSON text;
    - [Page]        what the page renders of the state (cursor, banner,
                    panel, list of sources);
    - [Mount]       the effect of lines 91-104 on the document.

    Theorems follow: [TypewriterFacts], [JsonFacts], [JsFacts],
    [ResearchFacts], [PdfFacts]; then [MoreTypewriterFacts], [FenceFacts],
    [MoreResearchFacts], [SessionFacts], [MorePdfFacts], [MountFacts]. *)

From Stdlib Require Import String Ascii List ZArith Lia Bool Arith.
From Stdlib Require Import DecimalString.
Import ListNotations.

Set Implicit Arguments.
Set Warnings "-register-all".

(* ===================================================================== *)
(** * The typewriter (lines 56-82) *)
(* ===================================================================== *)

Module Typewriter.

Section Reveal.

(** One [char] is one UTF-16 code unit, the unit of [text.length] and of
    [text.charAt]. *)
Context {char : Type}.

Abbreviation str := (list char).

(** [text.charAt(i)]: the one-unit string at [i], the empty string out of
    range. *)
Definition charAt (text : str) (i : nat) : str :=
  match nth_error text i with
  | Some c => [c]
  | None => []
  end.

(** The closure handed to [setDisplayedText] on line 65,
    [prev => prev + text.charAt(i)].  It does not hold a copy of [i]: it reads
    the [let i] of the effect at the moment React calls it. *)
Definition updater (text : str) (i : nat) (prev : str) : str :=
  prev ++ charAt text i.

(** When React calls an updater function.  The state setter only queues the
    function; React runs it either inside the setter call (its eager path,
    taken when the component has no pending work) or while rendering, after
    the timer callback has returned. *)
Inductive flush : Type :=
| Eager
| Deferred.

(** The effect's variables and the component state: the counter [i] of line
    62, [displayedText] of line 57, the number of queued updater functions
    and whether the interval is still installed. *)
Record reveal : Type := mkReveal {
  i : nat;
  displayedText : str;
  queued : nat;
  live : bool
}.

(** Line 65, the call of the state setter. *)
Definition setDisplayedText (w : flush) (text : str) (st : reveal) : reveal :=
  match w with
  | Eager =>
      mkReveal (i st) (updater text (i st) (displayedText st)) (queued st) (live st)
  | Deferred =>
      mkReveal (i st) (displayedText st) (S (queued st)) (live st)
  end.

(** Lines 64-69, the interval callback. *)
Definition callback (w : flush) (text : str) (st : reveal) : reveal :=
  if i st <? length text then
    let st1 := setDisplayedText w text st in
    mkReveal (S (i st1)) (displayedText st1) (queued st1) (live st1)
  else
    mkReveal (i st) (displayedText st) (queued st) false.

(** The render that follows a callback: the queued updater functions run, in
    order, each reading the current [i]. *)
Definition render (text : str) (st : reveal) : reveal :=
  mkReveal (i st)
           (Nat.iter (queued st) (updater text (i st)) (displayedText st))
           0 (live st).

(** One firing of the interval, if it is still installed. *)
Definition tick (text : str) (st : reveal) (w : flush) : reveal :=
  if live st then render text (callback w text st) else st.

(** Lines 60-63: the effect resets the display and installs the interval only
    for a non-empty text. *)
Definition start (text : str) : reveal :=
  mkReveal 0 [] 0 (match text with [] => false | _ :: _ => true end).

(** The state after the firings of [sched], one entry per firing. *)
Definition ticks (text : str) (sched : list flush) : reveal :=
  fold_left (tick text) sched (start text).

(** The displayed string after each firing that happened while the interval
    was installed and appended to the display: the frames the user sees. *)
Fixpoint frames_from (text : str) (st : reveal) (sched : list flush) : list str :=
  match sched with
  | [] => []
  | w :: rest =>
      let st' := tick text st w in
      if live st && (i st <? length text)
      then displayedText st' :: frames_from text st' rest
      else frames_from text st' rest
  end.

Definition frames (text : str) (sched : list flush) : list str :=
  frames_from text (start text) sched.

End Reveal.

End Typewriter.

(* ===================================================================== *)
(** * JavaScript values and built-ins used by the page *)
(* ===================================================================== *)

Module Js.

Open Scope string_scope.

(** The double quote and the line feed, as characters and as strings. *)
Definition dquote : ascii := "034"%char.
Definition lf : ascii := "010"%char.
Definition DQ : string := String dquote "".
Definition LF : string := String lf "".

(** [sq s] is [s] with every apostrophe turned into a double quote: JSON
    texts are written with apostrophes in this file. *)
Fixpoint sq (s : string) : string :=
  match s with
  | "" => ""
  | String c r => String (if Ascii.eqb c "'" then dquote else c) (sq r)
  end.

(** ** JSON values

    What [JSON.parse] and [response.json()] return.  A number is kept as
    [mantissa * 10 ^ exponent]; the page only ever tests numbers for
    truthiness.  [undefined] is not a JSON value: an expression that may be
    [undefined] has type [option json]. *)
Inductive json : Type :=
| JNull
| JBool (b : bool)
| JNum (mantissa exponent : Z)
| JStr (s : string)
| JArr (items : list json)
| JObj (props : list (string * json)).

(** The double that a number literal denotes is [0] exactly when the literal
    is at most half the least positive double, [2 ^ -1075]: the conversion
    rounds to the nearest double, ties to the even one, and the neighbours of
    that half are [0] (even) and [2 ^ -1074].  For [e < 0] the comparison
    [|m| * 10 ^ e <= 2 ^ -1075] is [|m| * 2 ^ 1075 <= 10 ^ -e]; for
    [0 <= e] a literal other than [0] is at least [1].  The conversion is
    the exact one, which is what V8 computes for a literal of any length. *)
Definition is_zero (m e : Z) : bool :=
  ((m =? 0) || ((e <? 0) && (Z.abs m * 2 ^ 1075 <=? 10 ^ (- e))))%Z.

(** [!!v].  No JSON number is [NaN]; a literal too large is [Infinity],
    which is truthy. *)
Definition truthy (v : option json) : bool :=
  match v with
  | None => false
  | Some JNull => false
  | Some (JBool b) => b
  | Some (JNum m e) => negb (is_zero m e)
  | Some (JStr s) => negb (s =? "")
  | Some (JArr _) => true
  | Some (JObj _) => true
  end.

(** [a || b] *)
Definition or_else (a : option json) (b : json) : json :=
  match a with
  | Some v => if truthy a then v else b
  | None => b
  end.

(** Own properties of an object, in insertion order, one entry per key. *)
Fixpoint lookup (k : string) (props : list (string * json)) : option json :=
  match props with
  | [] => None
  | (k', v) :: rest => if k =? k' then Some v else lookup k rest
  end.

Fixpoint assign (k : string) (v : json) (props : list (string * json))
  : list (string * json) :=
  match props with
  | [] => [(k, v)]
  | (k', v') :: rest =>
      if k =? k' then (k, v) :: rest else (k', v') :: assign k v rest
  end.

(** Array index keys: the canonical decimal numerals. *)
Definition key_of_index (n : nat) : string :=
  NilZero.string_of_uint (Nat.to_uint n).

Definition index_of_key (k : string) : option nat :=
  match NilZero.uint_of_string k with
  | Some u =>
      let n := Nat.of_uint u in
      if key_of_index n =? k then Some n else None
  | None => None
  end.

(** [v[k]] for a value [v] that is neither [null] nor [undefined].  Inherited
    members (the methods of the prototypes) are functions, not JSON values;
    none of the names the page reads as data is one of them. *)
Definition prop (v : json) (k : string) : option json :=
  match v with
  | JObj props => lookup k props
  | JArr items =>
      if k =? "length" then Some (JNum (Z.of_nat (List.length items)) 0)
      else match index_of_key k with
           | Some n => nth_error items n
           | None => None
           end
  | JStr s =>
      if k =? "length" then Some (JNum (Z.of_nat (String.length s)) 0)
      else match index_of_key k with
           | Some n => option_map (fun c => JStr (String c "")) (String.get n s)
           | None => None
           end
  | JNull | JBool _ | JNum _ _ => None
  end.

(** [v?.[k]] and [v?.k] *)
Definition opt_prop (v : option json) (k : string) : option json :=
  match v with
  | None => None
  | Some JNull => None
  | Some w => prop w k
  end.

(** [{...v}]: the own enumerable properties of [v]. *)
Fixpoint indexed {A : Type} (f : A -> json) (n : nat) (l : list A)
  : list (string * json) :=
  match l with
  | [] => []
  | a :: rest => (key_of_index n, f a) :: indexed f (S n) rest
  end.

Definition spread (v : json) : list (string * json) :=
  match v with
  | JObj props => props
  | JArr items => indexed (fun x => x) 0 items
  | JStr s => indexed (fun c => JStr (String c "")) 0 (list_ascii_of_string s)
  | JNull | JBool _ | JNum _ _ => []
  end.

(** ** [JSON.parse]

    A recursive-descent reader of the JSON grammar (ECMA-404), the grammar
    [JSON.parse] accepts.  Strings are byte strings (UTF-8); a [\u] escape
    is stored as the UTF-8 encoding of its code point. *)

Definition is_json_ws (c : ascii) : bool :=
  match nat_of_ascii c with
  | 32 | 9 | 10 | 13 => true
  | _ => false
  end.

Fixpoint skip_ws (s : string) : string :=
  match s with
  | "" => ""
  | String c r => if is_json_ws c then skip_ws r else s
  end.

Fixpoint strip_prefix (p s : string) : option string :=
  match p, s with
  | "", _ => Some s
  | String a p', String b s' => if Ascii.eqb a b then strip_prefix p' s' else None
  | String _ _, "" => None
  end.

Definition digit_of (c : ascii) : option nat :=
  let n := nat_of_ascii c in
  if ((48 <=? n) && (n <=? 57))%nat then Some (n - 48) else None.

Definition hex_of (c : ascii) : option N :=
  let n := N_of_ascii c in
  if ((48 <=? n) && (n <=? 57))%N then Some (n - 48)%N
  else if ((65 <=? n) && (n <=? 70))%N then Some (n - 55)%N
  else if ((97 <=? n) && (n <=? 102))%N then Some (n - 87)%N
  else None.

(** The longest run of digits at the head of [s]: its value continuing
    [acc], how many digits it has, and what follows. *)
Fixpoint digits (acc : Z) (count : nat) (s : string) : Z * nat * string :=
  match s with
  | "" => (acc, count, s)
  | String c r =>
      match digit_of c with
      | Some d => digits (10 * acc + Z.of_nat d)%Z (S count) r
      | None => (acc, count, s)
      end
  end.

(** number = [-] int [frac] [exp] *)
Definition sign_part (s : string) : bool * string :=
  match s with
  | String c r => if Ascii.eqb c "-" then (true, r) else (false, s)
  | "" => (false, s)
  end.

Definition int_part (s : string) : option (Z * string) :=
  match s with
  | String c r =>
      if Ascii.eqb c "0" then Some (0%Z, r)
      else match digits 0 0 s with
           | (_, O, _) => None
           | (v, S _, r') => Some (v, r')
           end
  | "" => None
  end.

Definition frac_part (iv : Z) (s : string) : option (Z * nat * string) :=
  match s with
  | String c r =>
      if Ascii.eqb c "." then
        match digits iv 0 r with
        | (_, O, _) => None
        | (v, S n, r') => Some (v, S n, r')
        end
      else Some (iv, O, s)
  | "" => Some (iv, O, s)
  end.

Definition exp_sign (s : string) : bool * string :=
  match s with
  | String c r =>
      if Ascii.eqb c "-" then (true, r)
      else if Ascii.eqb c "+" then (false, r)
      else (false, s)
  | "" => (false, s)
  end.

Definition exp_part (s : string) : option (Z * string) :=
  match s with
  | String c r =>
      if Ascii.eqb c "e" || Ascii.eqb c "E" then
        let (negative, r1) := exp_sign r in
        match digits 0 0 r1 with
        | (_, O, _) => None
        | (ev, S _, r2) => Some ((if negative then - ev else ev)%Z, r2)
        end
      else Some (0%Z, s)
  | "" => Some (0%Z, s)
  end.

Definition parse_number (s : string) : option (json * string) :=
  let (negative, s1) := sign_part s in
  match int_part s1 with
  | None => None
  | Some (iv, s2) =>
      match frac_part iv s2 with
      | None => None
      | Some (mv, fd, s3) =>
          match exp_part s3 with
          | None => None
          | Some (ev, s4) =>
              Some (JNum (if negative then - mv else mv)%Z (ev - Z.of_nat fd)%Z, s4)
          end
      end
  end.

(** The content of a string literal: raw bytes and escaped code units. *)
Inductive unit16 : Type :=
| Raw (c : ascii)
| Escaped (code : N).

Definition hex4 (a b c d : ascii) : option N :=
  match hex_of a, hex_of b, hex_of c, hex_of d with
  | Some x, Some y, Some z, Some w => Some (((x * 16 + y) * 16 + z) * 16 + w)%N
  | _, _, _, _ => None
  end.

(** The characters after the opening quote, up to the closing quote. *)
Fixpoint string_body (s : string) : option (list unit16 * string) :=
  match s with
  | "" => None
  | String c r =>
      if Ascii.eqb c dquote then Some ([], r)
      else if Ascii.eqb c "\" then
        match r with
        | String e r1 =>
            let simple (code : N) :=
              match string_body r1 with
              | Some (us, rest) => Some (Escaped code :: us, rest)
              | None => None
              end in
            if Ascii.eqb e dquote then simple 34%N
            else if Ascii.eqb e "\" then simple 92%N
            else if Ascii.eqb e "/" then simple 47%N
            else if Ascii.eqb e "b" then simple 8%N
            else if Ascii.eqb e "f" then simple 12%N
            else if Ascii.eqb e "n" then simple 10%N
            else if Ascii.eqb e "r" then simple 13%N
            else if Ascii.eqb e "t" then simple 9%N
            else if Ascii.eqb e "u" then
              match r1 with
              | String h1 (String h2 (String h3 (String h4 r2))) =>
                  match hex4 h1 h2 h3 h4, string_body r2 with
                  | Some code, Some (us, rest) => Some (Escaped code :: us, rest)
                  | _, _ => None
                  end
              | _ => None
              end
            else None
        | "" => None
        end
      else if (nat_of_ascii c <? 32)%nat then None
      else
        match string_body r with
        | Some (us, rest) => Some (Raw c :: us, rest)
        | None => None
        end
  end.

Definition byte (n : N) : ascii := ascii_of_N n.

(** UTF-8 encoding of a code point. *)
Definition utf8 (cp : N) : list ascii :=
  (if cp <? 128 then [byte cp]
   else if cp <? 2048 then [byte (192 + cp / 64); byte (128 + cp mod 64)]
   else if cp <? 65536 then
     [byte (224 + cp / 4096); byte (128 + (cp / 64) mod 64); byte (128 + cp mod 64)]
   else
     [byte (240 + cp / 262144); byte (128 + (cp / 4096) mod 64);
      byte (128 + (cp / 64) mod 64); byte (128 + cp mod 64)])%N.

Definition high_surrogate (n : N) : bool := ((55296 <=? n) && (n <=? 56319))%N.
Definition low_surrogate (n : N) : bool := ((56320 <=? n) && (n <=? 57343))%N.

Fixpoint bytes_of_units (us : list unit16) : list ascii :=
  match us with
  | [] => []
  | Raw c :: rest => c :: bytes_of_units rest
  | Escaped hi :: rest =>
      match rest with
      | Escaped lo :: rest' =>
          if high_surrogate hi && low_surrogate lo
          then utf8 (65536 + (hi - 55296) * 1024 + (lo - 56320))%N ++ bytes_of_units rest'
          else utf8 hi ++ bytes_of_units rest
      | _ => utf8 hi ++ bytes_of_units rest
      end
  end.

Definition parse_string (s : string) : option (string * string) :=
  match string_body s with
  | Some (us, rest) => Some (string_of_list_ascii (bytes_of_units us), rest)
  | None => None
  end.

(** The next character that is not white space, and what follows it. *)
Definition next (s : string) : option (ascii * string) :=
  match skip_ws s with
  | String c r => Some (c, r)
  | "" => None
  end.

(** What follows the next character when it is [c]. *)
Definition expect (c : ascii) (s : string) : option string :=
  match next s with
  | Some (c', r) => if Ascii.eqb c c' then Some r else None
  | None => None
  end.

(** value, the elements of an array after [[], the members of an object
    after [{].  [fuel] bounds the number of nested calls. *)
Fixpoint parse_value (fuel : nat) (s : string) : option (json * string) :=
  match fuel with
  | O => None
  | S fuel' =>
      match next s with
      | None => None
      | Some (c, r) =>
          if Ascii.eqb c "{" then
            match expect "}" r with
            | Some r' => Some (JObj [], r')
            | None => parse_members fuel' [] r
            end
          else if Ascii.eqb c "[" then
            match expect "]" r with
            | Some r' => Some (JArr [], r')
            | None => parse_elements fuel' [] r
            end
          else if Ascii.eqb c dquote then
            match parse_string r with
            | Some (str, r') => Some (JStr str, r')
            | None => None
            end
          else if Ascii.eqb c "t" then
            option_map (fun r' => (JBool true, r')) (strip_prefix "rue" r)
          else if Ascii.eqb c "f" then
            option_map (fun r' => (JBool false, r')) (strip_prefix "alse" r)
          else if Ascii.eqb c "n" then
            option_map (fun r' => (JNull, r')) (strip_prefix "ull" r)
          else parse_number (String c r)
      end
  end

with parse_elements (fuel : nat) (acc : list json) (s : string)
  : option (json * string) :=
  match fuel with
  | O => None
  | S fuel' =>
      match parse_value fuel' s with
      | Some (v, r) =>
          match next r with
          | Some (c, r') =>
              if Ascii.eqb c "," then parse_elements fuel' (acc ++ [v]) r'
              else if Ascii.eqb c "]" then Some (JArr (acc ++ [v]), r')
              else None
          | None => None
          end
      | None => None
      end
  end

with parse_members (fuel : nat) (acc : list (string * json)) (s : string)
  : option (json * string) :=
  match fuel with
  | O => None
  | S fuel' =>
      match expect dquote s with
      | Some r =>
          match parse_string r with
          | Some (k, r1) =>
              match expect ":" r1 with
              | Some r2 =>
                  match parse_value fuel' r2 with
                  | Some (v, r3) =>
                      match next r3 with
                      | Some (c, r4) =>
                          if Ascii.eqb c "," then parse_members fuel' (assign k v acc) r4
                          else if Ascii.eqb c "}" then Some (JObj (assign k v acc), r4)
                          else None
                      | None => None
                      end
                  | None => None
                  end
              | None => None
              end
          | None => None
          end
      | None => None
      end
  end.

(** [JSON.parse(s)]: one value between optional white space; [None] is the
    thrown [SyntaxError].  The fuel given is never exhausted
    ([JsonFacts.JSON_parse_adequate]). *)
Definition JSON_parse (s : string) : option json :=
  match parse_value (2 * String.length s + 2) s with
  | Some (v, rest) =>
      match skip_ws rest with
      | "" => Some v
      | String _ _ => None
      end
  | None => None
  end.

(** ** String built-ins *)

(** [rawText.replace(/```json\n?/, "")] (line 158): the first occurrence of
    the opening marker, wherever it is, is removed together with a line feed
    that follows it directly. *)
Fixpoint strip_open (s : string) : string :=
  match strip_prefix "```json" s with
  | Some r =>
      match r with
      | String c r' => if Ascii.eqb c lf then r' else r
      | "" => r
      end
  | None =>
      match s with
      | "" => ""
      | String c r => String c (strip_open r)
      end
  end.

(** [.replace(/```$/, "")] (line 158): without the [m] flag [$] is the end
    of the string, so the match is the three backticks that end the string. *)
Fixpoint strip_close (s : string) : string :=
  match s with
  | "" => ""
  | String c r => if s =? "```" then "" else String c (strip_close r)
  end.

Definition strip_fence (rawText : string) : string :=
  strip_close (strip_open rawText).

(** The stripping as the specification words it: an opening marker that
    leads the text (with the line feed after it) and a closing marker that
    ends it. *)
Definition strip_wrapper (rawText : string) : string :=
  strip_close
    match strip_prefix "```json" rawText with
    | Some r =>
        match r with
        | String c r' => if Ascii.eqb c lf then r' else r
        | "" => r
        end
    | None => rawText
    end.

(** White space of [trim] and of [\s]: the code points that ECMAScript
    calls WhiteSpace or LineTerminator.  A string of this file is the UTF-8
    encoding of the JavaScript string, so a white-space character is one to
    three bytes. *)
Definition white_space : list N :=
  [9; 10; 11; 12; 13; 32; 160; 5760;
   8192; 8193; 8194; 8195; 8196; 8197; 8198; 8199; 8200; 8201; 8202;
   8232; 8233; 8239; 8287; 12288; 65279]%N.

Definition encoded (cp : N) : string := string_of_list_ascii (utf8 cp).

Fixpoint first_match (ws : list string) (s : string) : option string :=
  match ws with
  | [] => None
  | w :: rest =>
      match strip_prefix w s with
      | Some r => Some r
      | None => first_match rest s
      end
  end.

(** What follows the white-space character that [s] starts with, if it
    starts with one. *)
Definition space_at (s : string) : option string :=
  first_match (map encoded white_space) s.

(** [s] is white space from end to end.  A white-space character has at
    least one byte, so [String.length s] steps are enough
    ([JsFacts.space_at_shorter]). *)
Fixpoint all_spaces (fuel : nat) (s : string) : bool :=
  match s with
  | "" => true
  | String _ _ =>
      match fuel with
      | 0 => false
      | S fuel' =>
          match space_at s with
          | Some r => all_spaces fuel' r
          | None => false
          end
      end
  end.

Definition only_white_space (s : string) : bool := all_spaces (String.length s) s.

Fixpoint skip_spaces (fuel : nat) (s : string) : string :=
  match fuel with
  | 0 => s
  | S fuel' =>
      match space_at s with
      | Some r => skip_spaces fuel' r
      | None => s
      end
  end.

Definition trimStart (s : string) : string := skip_spaces (String.length s) s.

(** The text is cut where only white space is left.  A suffix that starts
    inside a character starts with a continuation byte, which starts no
    white-space character, so it is cut only at a character. *)
Fixpoint trimEnd (s : string) : string :=
  match s with
  | "" => ""
  | String c r => if only_white_space s then "" else String c (trimEnd r)
  end.

Definition trim (s : string) : string := trimEnd (trimStart s).

(** [s.replace(/\s/g, '_')] (line 236): every white-space character, of
    however many bytes, becomes one underscore. *)
Fixpoint replace_spaces (fuel : nat) (s : string) : string :=
  match fuel with
  | 0 => ""
  | S fuel' =>
      match space_at s with
      | Some r => String "_" (replace_spaces fuel' r)
      | None =>
          match s with
          | "" => ""
          | String c r => String c (replace_spaces fuel' r)
          end
      end
  end.

Definition underscore_spaces (s : string) : string :=
  replace_spaces (String.length s) s.

(** [!/\s/.test(s)]: no position of [s] starts a white-space character. *)
Fixpoint no_space (s : string) : bool :=
  match s with
  | "" => true
  | String _ r =>
      match space_at s with
      | Some _ => false
      | None => no_space r
      end
  end.

(** A byte that continues a character of several bytes. *)
Definition continuation (c : ascii) : bool :=
  ((128 <=? N_of_ascii c) && (N_of_ascii c <? 192))%N.

Fixpoint continued (s : string) : bool :=
  match s with
  | "" => true
  | String c r => continuation c && continued r
  end.

(** The shape of an encoded white-space character: a first byte that is
    neither a continuation byte nor the underscore, then continuation bytes. *)
Definition shaped (w : string) : bool :=
  match w with
  | "" => false
  | String a x => negb (continuation a) && negb (Ascii.eqb a "_") && continued x
  end.

(** What may follow a text without joining its last character. *)
Definition detached (s : string) : bool :=
  match s with
  | "" => true
  | String c _ => negb (continuation c)
  end.

(** A number in a template literal. *)
Definition decimal (n : nat) : string := NilZero.string_of_uint (Nat.to_uint n).

End Js.

(* ===================================================================== *)
(** * The PDF layout of [downloadPdf] (lines 195-236) *)
(* ===================================================================== *)

Module Pdf.

Import Js.
Open Scope string_scope.

(** The declared shape of a result (lines 11-20). *)
Record Source : Type := mkSource {
  title : string;
  uri : string
}.

Record ResearchResult : Type := mkResult {
  topic : string;
  summary : string;
  sources : list Source
}.

(** JavaScript numbers, through the operations the layout uses.  The layout
    is stated for any interpretation of them. *)
Class Number (num : Type) : Type := {
  lit : nat -> num;
  add : num -> num -> num;
  sub : num -> num -> num;
  mul : num -> num -> num;
  div : num -> num -> num;
  gt : num -> num -> bool
}.

Section Layout.

Context {num : Type} {number : Number num}.

Inductive alignment : Type := left | center | right | justify.

(** [JsPDFTextOptions] (lines 23-26) *)
Record TextOptions : Type := mkOptions {
  align : option alignment;
  maxWidth : option num
}.

(** The calls that draw on the document or change its state, as declared in
    [CustomJsPDF] (lines 33-44). *)
Inductive call : Type :=
| setTextColor (r g b : nat)
| setFontSize (size : nat)
| setFont (fontName fontStyle : string)
| text (t : string) (x y : num) (options : option TextOptions)
| textLines (lines : list string) (x y : num)
| textWithLink (t : string) (x y : num) (url : string)
| addPage
| save (filename : string).

(** The measuring functions of the library.  Their answers depend on the
    state of the document (font, size, current page), that is on the calls
    made so far. *)
Record jsPDF : Type := mkPdf {
  getWidth : list call -> num;
  getHeight : list call -> num;
  splitTextToSize : list call -> string -> num -> list string;
  getTextDimensions : list call -> string -> num -> num
}.

(** The document under construction and the vertical cursor. *)
Record doc : Type := mkDoc {
  calls : list call;
  yPosition : num
}.

Definition emit (c : call) (d : doc) : doc :=
  mkDoc (calls d ++ [c]) (yPosition d).

Definition advance (dy : num) (d : doc) : doc :=
  mkDoc (calls d) (add (yPosition d) dy).

Definition margin : num := lit 20.

(** Lines 215 and 224:
    [if (yPosition + needed > getHeight() - margin) { addPage(); yPosition = margin; }] *)
Definition overflows (pdf : jsPDF) (needed : num) (d : doc) : bool :=
  gt (add (yPosition d) needed) (sub (getHeight pdf (calls d)) margin).

Definition page_break (pdf : jsPDF) (needed : num) (d : doc) : doc :=
  if overflows pdf needed d
  then mkDoc (calls d ++ [addPage]) margin
  else d.

(** Lines 202-212: the title and the summary. *)
Definition head (pdf : jsPDF) (pageWidth : num) (result : ResearchResult) : doc :=
  let width := sub pageWidth (mul margin (lit 2)) in
  let d := mkDoc [] margin in
  let d := emit (setTextColor 0 0 0) d in
  let d := emit (setFontSize 20) d in
  let d := emit (setFont "helvetica" "bold") d in
  let d := emit (text (topic result) (div pageWidth (lit 2)) (yPosition d)
                      (Some (mkOptions (Some center) (Some width)))) d in
  let d := advance (add (mul (lit (List.length
                         (splitTextToSize pdf (calls d) (topic result) width)))
                         (lit 10)) (lit 10)) d in
  let d := emit (setFontSize 12) d in
  let d := emit (setFont "helvetica" "normal") d in
  let summaryLines := splitTextToSize pdf (calls d) (summary result) width in
  let d := emit (textLines summaryLines margin (yPosition d)) d in
  advance (add (mul (lit (List.length summaryLines)) (lit 7)) (lit 10)) d.

(** Lines 215-219: the section heading. *)
Definition heading (pdf : jsPDF) (d : doc) : doc :=
  let d := page_break pdf (lit 10) d in
  let d := emit (setFontSize 14) d in
  let d := emit (setFont "helvetica" "bold") d in
  let d := emit (text "Sources" margin (yPosition d) None) d in
  advance (lit 8) d.

(** Lines 224-232: the body of the [forEach]. *)
Definition entry (pdf : jsPDF) (pageWidth : num) (d : doc) (source : Source) : doc :=
  let width := sub pageWidth (mul margin (lit 2)) in
  let d := page_break pdf (lit 12) d in
  let d := emit (setTextColor 0 0 0) d in
  let d := emit (text (title source) margin (yPosition d)
                      (Some (mkOptions None (Some width)))) d in
  let d := advance (add (getTextDimensions pdf (calls d) (title source) width)
                        (lit 2)) d in
  let d := emit (setTextColor 0 0 255) d in
  let d := emit (textWithLink (uri source) margin (yPosition d) (uri source)) d in
  advance (lit 10) d.

(** Lines 215-222: what precedes the [forEach]. *)
Definition before_entries (pdf : jsPDF) (d : doc) : doc :=
  let d := heading pdf d in
  let d := emit (setFontSize 10) d in
  emit (setFont "helvetica" "normal") d.

(** Lines 214-234 *)
Definition sources_section (pdf : jsPDF) (pageWidth : num)
  (srcs : list Source) (d : doc) : doc :=
  match srcs with
  | [] => d
  | _ :: _ => fold_left (entry pdf pageWidth) srcs (before_entries pdf d)
  end.

(** Lines 196-236: the calls made on a fresh document, in order.  The
    library calls are taken to return; a call that throws ends in the
    [catch] of line 237. *)
Definition export (pdf : jsPDF) (result : ResearchResult) : list call :=
  let pageWidth := getWidth pdf [] in
  let d := head pdf pageWidth result in
  let d := sources_section pdf pageWidth (sources result) d in
  calls (emit (save (underscore_spaces (topic result) ++ ".pdf")) d).

(** ** Reading the calls back *)

(** The heading of the sources section is the only text written without
    options. *)
Definition is_heading (c : call) : bool :=
  match c with
  | text t _ _ None => t =? "Sources"
  | _ => false
  end.

(** The link of an entry is the only [textWithLink]. *)
Fixpoint written_links (cs : list call) : list string :=
  match cs with
  | [] => []
  | textWithLink _ _ _ url :: rest => url :: written_links rest
  | _ :: rest => written_links rest
  end.

(** The entries read back from the calls.  The title of an entry is the
    only text written with a width and no alignment; it is directly followed
    by the colour change and the link. *)
Fixpoint written_entries (cs : list call) : list Source :=
  match cs with
  | [] => []
  | text t _ _ (Some (mkOptions None (Some _))) :: rest =>
      match rest with
      | setTextColor _ _ _ :: textWithLink _ _ _ url :: _ =>
          mkSource t url :: written_entries rest
      | _ => written_entries rest
      end
  | _ :: rest => written_entries rest
  end.

Definition pages (cs : list call) : nat :=
  S (List.length (filter (fun c => match c with addPage => true | _ => false end) cs)).

(** The calls a page-break check adds, and the cursor it leaves. *)
Definition break_calls (pdf : jsPDF) (needed : num) (d : doc) : list call :=
  if overflows pdf needed d then [addPage] else [].

Definition break_cursor (pdf : jsPDF) (needed : num) (d : doc) : num :=
  if overflows pdf needed d then margin else yPosition d.

End Layout.

(** Whole millimetres, for worked examples. *)
#[export] Instance Z_Number : Number Z := {
  lit := Z.of_nat;
  add := Z.add;
  sub := Z.sub;
  mul := Z.mul;
  div := Z.div;
  gt := Z.gtb
}.

End Pdf.

(* ===================================================================== *)
(** * The component [App]: state, [startResearch], [downloadPdf], controls *)
(* ===================================================================== *)

Module App.

Import Js.
Open Scope string_scope.

(** The five state variables of lines 85-89.  [result] holds the object that
    [setResult] received, whatever its keys are. *)
Record AppState : Type := mkApp {
  query : string;
  apiKey : string;
  result : option json;
  loading : bool;
  error : option string
}.

Definition initial : AppState := mkApp "" "" None false None.

Definition setQuery (q : string) (st : AppState) : AppState :=
  mkApp q (apiKey st) (result st) (loading st) (error st).
Definition setApiKey (k : string) (st : AppState) : AppState :=
  mkApp (query st) k (result st) (loading st) (error st).
Definition setResult (r : option json) (st : AppState) : AppState :=
  mkApp (query st) (apiKey st) r (loading st) (error st).
Definition setLoading (b : bool) (st : AppState) : AppState :=
  mkApp (query st) (apiKey st) (result st) b (error st).
Definition setError (e : option string) (st : AppState) : AppState :=
  mkApp (query st) (apiKey st) (result st) (loading st) e.

(** ** Exceptions *)

(** Where an exception comes from: the three [throw] statements of
    [startResearch], or the platform ([fetch] rejecting, [response.json()]
    or a member access throwing). *)
Inductive error_kind : Type :=
| HttpError
| EmptyResponse
| MalformedContent
| Platform.

Record exn : Type := mkExn {
  kind : error_kind;
  message : string
}.

(** The exceptions the engine itself raises. *)
Inductive fault : Type :=
| ReadOfNull (name : string)
| NotAFunction (name : string)
| BadJson (text : string).

Definition M (A : Type) : Type := (exn + A)%type.
Definition ret {A : Type} (a : A) : M A := inr a.
Definition throw {A : Type} (e : exn) : M A := inl e.
Definition bind {A B : Type} (m : M A) (k : A -> M B) : M B :=
  match m with
  | inl e => inl e
  | inr a => k a
  end.

Notation "x <- m ;; k" := (bind m (fun x => k))
  (at level 61, m at next level, right associativity).

(** ** The network *)

Record Request : Type := mkRequest {
  url : string;
  method : string;
  headers : list (string * string);
  payload : json
}.

Record Response : Type := mkResponse {
  status : nat;
  body : string
}.

(** [response.ok]: the status is in the range 200-299. *)
Definition ok (r : Response) : bool :=
  ((200 <=? status r) && (status r <=? 299))%nat.

(** How the promise of [fetch] settles. *)
Inductive fetched : Type :=
| Rejected (message : string)
| Resolved (response : Response).

Definition MissingApiKey : string := "Please provide an API key.".
Definition MissingTopic : string := "Please enter a topic to research.".
Definition WeirdFormat : string := "The model returned a weird format. Try again.".
Definition NoResponse : string := "No response from the model.".
Definition UnknownError : string := "An unknown error happened.".
Definition PdfNotReady : string :=
  "Can't download PDF yet. The PDF library might still be loading.".

(** Lines 120-127 *)
Definition systemPrompt (query : string) : string :=
  LF ++ "      You are a world-class research assistant AI named Inquestor."
  ++ LF ++ "      Your goal is to provide a concise, accurate, and well-sourced summary of a given topic using real-time web search."
  ++ LF ++ "      1. You MUST perform a web search to gather up-to-date information."
  ++ LF ++ "      2. Synthesize the information into a clear summary."
  ++ LF ++ "      3. The user's query is: " ++ DQ ++ query ++ DQ
  ++ LF ++ "      4. Respond with ONLY a single JSON object with the keys "
  ++ DQ ++ "topic" ++ DQ ++ " and " ++ DQ ++ "summary" ++ DQ ++ "."
  ++ LF ++ "    ".

(** Lines 129-141 *)
Definition request (st : AppState) : Request :=
  mkRequest
    ("https://generativelanguage.googleapis.com/v1beta/models/gemini-2.5-flash-preview-05-20:generateContent?key="
       ++ apiKey st)
    "POST"
    [("Content-Type", "application/json")]
    (JObj [("contents",
            JArr [JObj [("parts", JArr [JObj [("text", JStr (systemPrompt (query st)))]])]]);
           ("tools", JArr [JObj [("google_search", JObj [])]])]).

Section Research.

(** The wording of the engine's own error messages. *)
Variable wording : fault -> string.

Definition engine (f : fault) : exn := mkExn Platform (wording f).

(** [v.k]: reading a member of [null] throws a [TypeError]. *)
Definition member (v : json) (k : string) : M (option json) :=
  match v with
  | JNull => throw (engine (ReadOfNull k))
  | _ => ret (prop v k)
  end.

(** Lines 157-163.  A text that is not a string has no [replace]; the
    [TypeError] is caught by the same [catch] as the [SyntaxError] of
    [JSON.parse]. *)
Definition parse_content (rawText : json) : M json :=
  match rawText with
  | JStr t =>
      match JSON_parse (strip_fence t) with
      | Some parsedContent => ret parsedContent
      | None => throw (mkExn MalformedContent WeirdFormat)
      end
  | _ => throw (mkExn MalformedContent WeirdFormat)
  end.

(** Lines 168-171, the callback of [map]. *)
Definition to_source (attr : json) : M json :=
  web <- member attr "web" ;;
  ret (JObj [("title", or_else (opt_prop web "title") (JStr ""));
             ("uri", or_else (opt_prop web "uri") (JStr ""))]).

Fixpoint map_sources (attrs : list json) : M (list json) :=
  match attrs with
  | [] => ret []
  | attr :: rest =>
      source <- to_source attr ;;
      others <- map_sources rest ;;
      ret (source :: others)
  end.

(** Line 172, the callback of [filter]: [source.uri && source.title]. *)
Definition complete (source : json) : bool :=
  truthy (prop source "uri") && truthy (prop source "title").

(** Lines 165-172.  The optional chain stops at the first [null] or
    [undefined] and [|| []] then gives the empty list; only an array has a
    [map] to call. *)
Definition extract_sources (candidate : json) : M (list json) :=
  let groundingMetadata := prop candidate "groundingMetadata" in
  match opt_prop groundingMetadata "groundingAttributions" with
  | None => ret []
  | Some JNull => ret []
  | Some (JArr attrs) =>
      mapped <- map_sources attrs ;;
      ret (filter complete mapped)
  | Some _ => throw (engine (NotAFunction "map"))
  end.

(** Line 174: [{ ...parsedContent, sources }] *)
Definition assemble (parsedContent : json) (srcs : list json) : json :=
  JObj (assign "sources" (JArr srcs) (spread parsedContent)).

(** Line 154 *)
Definition raw_text (candidate : json) : json :=
  or_else
    (opt_prop (opt_prop (opt_prop (prop candidate "content") "parts") "0") "text")
    (JStr "").

(** Lines 137-174, the body of the [try]: the value handed to [setResult],
    or the exception that reaches the [catch] of line 176. *)
Definition attempt (settled : fetched) : M json :=
  match settled with
  | Rejected msg => throw (mkExn Platform msg)
  | Resolved response =>
      if negb (ok response) then
        throw (mkExn HttpError ("API call failed! Status: " ++ decimal (status response)))
      else
        match JSON_parse (body response) with
        | None => throw (engine (BadJson (body response)))
        | Some data =>
            candidates <- member data "candidates" ;;
            match opt_prop candidates "0" with
            | Some candidate =>
                if negb (truthy (Some candidate)) then
                  throw (mkExn EmptyResponse NoResponse)
                else
                  parsedContent <- parse_content (raw_text candidate) ;;
                  srcs <- extract_sources candidate ;;
                  ret (assemble parsedContent srcs)
            | None => throw (mkExn EmptyResponse NoResponse)
            end
        end
  end.

(** Lines 106-118: the checks and the three setters before the request. *)
Inductive dispatch : Type :=
| Refused (st : AppState)
| Sent (st : AppState) (req : Request).

(** The state while the request is in flight (lines 116-118). *)
Definition in_flight (st : AppState) : AppState :=
  setResult None (setError None (setLoading true st)).

Definition begin (st : AppState) : dispatch :=
  if apiKey st =? "" then Refused (setError (Some MissingApiKey) st)
  else if query st =? "" then Refused (setError (Some MissingTopic) st)
  else Sent (in_flight st) (request st).

(** Lines 174-184: [setResult] on success, the [catch] and the [finally].
    Every exception of [attempt] is an [Error]. *)
Definition settle (settled : fetched) (st : AppState) : AppState :=
  setLoading false
    match attempt settled with
    | inr r => setResult (Some r) st
    | inl e =>
        setError (Some (if message e =? "" then UnknownError else message e)) st
    end.

(** [startResearch], with the requests it sent.  [fetch] is the network: it
    tells how the promise of each request settles. *)
Definition startResearch (fetch : Request -> fetched) (st : AppState)
  : AppState * list Request :=
  match begin st with
  | Refused st' => (st', [])
  | Sent st' req => (settle (fetch req) st', [req])
  end.

(** ** The controls *)

(** Line 297 *)
Definition run_disabled (st : AppState) : bool :=
  loading st || (trim (query st) =? "") || (trim (apiKey st) =? "").

(** Line 289 *)
Definition textarea_disabled (st : AppState) : bool := loading st.

(** Lines 281-286 *)
Definition onKeyDown (key : string) (shiftKey : bool)
  (fetch : Request -> fetched) (st : AppState) : AppState * list Request :=
  if (key =? "Enter") && negb shiftKey then startResearch fetch st else (st, []).

(** Line 296; a disabled button does not receive the click. *)
Definition onClick (fetch : Request -> fetched) (st : AppState)
  : AppState * list Request :=
  if run_disabled st then (st, []) else startResearch fetch st.

End Research.

(** ** The declared shape of an attribution (line 166)

    [type Attribution = { web?: { title?: string; uri?: string } }], and the
    list of sources that the specification derives from a list of them. *)
Record Web : Type := mkWeb {
  web_title : option string;
  web_uri : option string
}.

Record Attribution : Type := mkAttribution {
  web : option Web
}.

Definition field (k : string) (v : option string) : list (string * json) :=
  match v with
  | Some s => [(k, JStr s)]
  | None => []
  end.

Definition of_Web (w : Web) : json :=
  JObj (field "title" (web_title w) ++ field "uri" (web_uri w)).

Definition of_Attribution (a : Attribution) : json :=
  JObj match web a with
       | Some w => [("web", of_Web w)]
       | None => []
       end.

(** An attribution is kept when it has a title and a URI and neither is the
    empty string. *)
Definition cited (a : Attribution) : option Pdf.Source :=
  match web a with
  | Some (mkWeb (Some t) (Some u)) =>
      if (t =? "") || (u =? "") then None else Some (Pdf.mkSource t u)
  | _ => None
  end.

Fixpoint citations (attrs : list Attribution) : list Pdf.Source :=
  match attrs with
  | [] => []
  | a :: rest =>
      match cited a with
      | Some s => s :: citations rest
      | None => citations rest
      end
  end.

(** ** The sources of any list of attributions

    The same list read off attributions as they arrive, whatever their keys
    and the order of them: each attribution gives a source (lines 168-171),
    and a source whose title or URI is the empty string is left out. *)
Definition title_of (attr : json) : json :=
  or_else (opt_prop (prop attr "web") "title") (JStr "").

Definition uri_of (attr : json) : json :=
  or_else (opt_prop (prop attr "web") "uri") (JStr "").

Definition source_of (attr : json) : json :=
  JObj [("title", title_of attr); ("uri", uri_of attr)].

Definition empty (v : json) : bool :=
  match v with
  | JStr "" => true
  | _ => false
  end.

Definition kept (attr : json) : bool :=
  negb (empty (title_of attr)) && negb (empty (uri_of attr)).

Definition sources_of (attrs : list json) : list json :=
  map source_of (filter kept attrs).

(** ** [downloadPdf] (lines 187-244) *)

(** The stored object read at its declared type [ResearchResult]. *)
Definition as_string (v : option json) : option string :=
  match v with
  | Some (JStr s) => Some s
  | _ => None
  end.

Definition as_Source (v : json) : option Pdf.Source :=
  match as_string (prop v "title"), as_string (prop v "uri") with
  | Some t, Some u => Some (Pdf.mkSource t u)
  | _, _ => None
  end.

Fixpoint as_Sources (l : list json) : option (list Pdf.Source) :=
  match l with
  | [] => Some []
  | v :: rest =>
      match as_Source v, as_Sources rest with
      | Some s, Some ss => Some (s :: ss)
      | _, _ => None
      end
  end.

Definition as_ResearchResult (v : json) : option Pdf.ResearchResult :=
  match as_string (prop v "topic"), as_string (prop v "summary"), prop v "sources" with
  | Some t, Some s, Some (JArr l) => option_map (Pdf.mkResult t s) (as_Sources l)
  | _, _, _ => None
  end.

Definition of_Source (s : Pdf.Source) : json :=
  JObj [("title", JStr (Pdf.title s)); ("uri", JStr (Pdf.uri s))].

Definition of_ResearchResult (r : Pdf.ResearchResult) : json :=
  JObj [("topic", JStr (Pdf.topic r)); ("summary", JStr (Pdf.summary r));
        ("sources", JArr (map of_Source (Pdf.sources r)))].

Section Download.

Context {num : Type} {number : Pdf.Number num}.

(** What a call of [downloadPdf] does: the early return of lines 190-193,
    or the drawing of lines 195-236.  For a stored object that is not a
    [ResearchResult] what happens is up to the library and is left out. *)
Inductive download : Type :=
| NotReady (st : AppState)
| Drawn (st : AppState) (cs : list (Pdf.call (num := num)))
| Untyped.

(** [jspdf] is [window.jspdf]: [None] while the script has not loaded. *)
Definition downloadPdf (jspdf : option (Pdf.jsPDF (num := num))) (st : AppState)
  : download :=
  match result st, jspdf with
  | Some r, Some pdf =>
      match as_ResearchResult r with
      | Some typed => Drawn st (Pdf.export pdf typed)
      | None => Untyped
      end
  | _, _ => NotReady (setError (Some PdfNotReady) st)
  end.

(** ** The page as a transition system *)

Inductive event : Type :=
| TypeApiKey (k : string)
| TypeQuery (q : string)
| KeyDown (key : string) (shiftKey : bool)
| ClickRun
| ClickDownload.

Variable wording : fault -> string.
Variable fetch : Request -> fetched.
Variable jspdf : option (Pdf.jsPDF (num := num)).

(** One user event, the research call it may start running to its end.  The
    text area is disabled while loading (line 289) and the download button
    is rendered only with a result (line 325). *)
Definition step (st : AppState) (ev : event) : option AppState :=
  match ev with
  | TypeApiKey k => Some (setApiKey k st)
  | TypeQuery q => Some (if textarea_disabled st then st else setQuery q st)
  | KeyDown key shiftKey =>
      Some (if textarea_disabled st then st
            else fst (onKeyDown wording key shiftKey fetch st))
  | ClickRun => Some (fst (onClick wording fetch st))
  | ClickDownload =>
      match result st with
      | None => Some st
      | Some _ =>
          match downloadPdf jspdf st with
          | NotReady st' => Some st'
          | Drawn st' _ => Some st'
          | Untyped => None
          end
      end
  end.

Fixpoint run (st : AppState) (evs : list event) : option AppState :=
  match evs with
  | [] => Some st
  | ev :: rest =>
      match step st ev with
      | Some st' => run st' rest
      | None => None
      end
  end.

End Download.

End App.

(* ===================================================================== *)
(** * Sample data for the worked cases *)
(* ===================================================================== *)

Module Sample.

Import Js App.
Open Scope string_scope.

(** A text for the typewriter, and a schedule of React 18 for it: the first
    updater runs inside the setter call, the following ones while
    rendering. *)
Definition abc : list ascii := list_ascii_of_string "abc".

Definition react18 : list Typewriter.flush :=
  [Typewriter.Eager; Typewriter.Deferred; Typewriter.Deferred;
   Typewriter.Deferred; Typewriter.Deferred].

(** The wording of V8. *)
Definition v8 (f : fault) : string :=
  match f with
  | ReadOfNull name => "Cannot read properties of null (reading '" ++ name ++ "')"
  | NotAFunction name => name ++ " is not a function"
  | BadJson _ => "Unexpected end of JSON input"
  end.

(** The body of a response whose single candidate answers with [answer],
    given as the content of a JSON string literal, and carries the grounding
    metadata [grounding], given as a JSON text. *)
Definition body_of (answer grounding : string) : string :=
  sq "{'candidates':[{'content':{'parts':[{'text':'" ++ answer
  ++ sq "'}]},'groundingMetadata':" ++ grounding ++ sq "}]}".

Definition no_grounding : string := sq "{}".

(** A fenced answer and two attributions, the second without a URI. *)
Definition fenced_body : string :=
  body_of
    (sq "```json\n{\'topic\':\'Tides\',\'summary\':\'The moon.\'}\n```")
    (sq "{'groundingAttributions':[{'web':{'title':'NOAA','uri':'https://noaa.gov'}},{'web':{'title':'Untitled'}}]}").

(** An answer that is valid JSON and has no [summary]. *)
Definition partial_body : string :=
  body_of (sq "{\'topic\':\'Tides\'}") no_grounding.

(** An answer that is not JSON. *)
Definition prose_body : string :=
  body_of "The tides are caused by the moon." no_grounding.

(** An answer with the opening marker in its middle. *)
Definition inside_text : string := "[1,```json 2]".
Definition inside_body : string := body_of inside_text no_grounding.

(** An answer whose own [sources] key competes with the derived list. *)
Definition rival_body : string :=
  body_of
    (sq "{\'topic\':\'Tides\',\'sources\':[\'made up\'],\'summary\':\'The moon.\'}")
    (sq "{'groundingAttributions':[{'web':{'title':'NOAA','uri':'https://noaa.gov'}}]}").

Definition answers (body : string) (req : Request) : fetched :=
  Resolved (mkResponse 200 body).

Definition ready : AppState := mkApp "tides" "secret" None false None.

(** A topic and a credential of white space only, with U+00A0, the
    no-break space, and U+3000, the ideographic space. *)
Definition nbsp : string := String "194" (String "160" "").
Definition wide_space : string := String "227" (String "128" (String "128" "")).

Definition blank : AppState :=
  mkApp (" " ++ nbsp ++ wide_space) nbsp None false None.

(** The parsed body of a response and its first candidate. *)
Definition data_of (body : string) : json :=
  match JSON_parse body with
  | Some data => data
  | None => JNull
  end.

Definition candidate_of (body : string) : json :=
  match opt_prop (prop (data_of body) "candidates") "0" with
  | Some candidate => candidate
  | None => JNull
  end.

Definition fenced_data : json := Eval vm_compute in data_of fenced_body.
Definition fenced_candidate : json := Eval vm_compute in candidate_of fenced_body.
Definition fenced_text : string :=
  "```json" ++ LF ++ sq "{'topic':'Tides','summary':'The moon.'}" ++ LF ++ "```".

Definition two_attributions : list Attribution :=
  [mkAttribution (Some (mkWeb (Some "NOAA") (Some "https://noaa.gov")));
   mkAttribution (Some (mkWeb (Some "Untitled") None))].

(** Attributions as a service may send them: the URI before the title,
    keys the page does not read, a [web] that is [null], an empty title, a
    title that is not a string, an entry that is not an object. *)
Definition mixed_body : string :=
  body_of
    (sq "{\'topic\':\'Tides\',\'summary\':\'The moon.\'}")
    (sq ("{'webSearchQueries':['tides'],'groundingAttributions':["
         ++ "{'sourceId':{'passage':3},'web':{'uri':'https://noaa.gov','title':'NOAA'},'confidenceScore':0.9},"
         ++ "{'web':{'title':'Untitled'}},"
         ++ "{'web':null},"
         ++ "{'web':{'uri':'https://x.example','title':''}},"
         ++ "{'web':{'uri':'https://y.example','title':1e-400}},"
         ++ "7,"
         ++ "{'web':{'title':'Tide tables','lang':'en','uri':'https://tides.example'}}]}")).

Definition mixed_candidate : json := Eval vm_compute in candidate_of mixed_body.

Definition mixed_attributions : list json :=
  match opt_prop (prop mixed_candidate "groundingMetadata") "groundingAttributions" with
  | Some (JArr attrs) => attrs
  | _ => []
  end.

Definition rival_result : json :=
  JObj [("topic", JStr "Tides");
        ("sources", JArr [of_Source (Pdf.mkSource "NOAA" "https://noaa.gov")]);
        ("summary", JStr "The moon.")].

(** An A4 page in whole millimetres, every text one line of height 5. *)
Definition a4 : Pdf.jsPDF (num := Z) :=
  Pdf.mkPdf (fun _ => 210%Z) (fun _ => 297%Z) (fun _ t _ => [t]) (fun _ _ _ => 5%Z).

Definition numbered (n : nat) : Pdf.Source :=
  Pdf.mkSource ("Source " ++ decimal n) ("https://example.org/" ++ decimal n).

(** A result with twenty sources, and one with none. *)
Definition long_result : Pdf.ResearchResult :=
  Pdf.mkResult "Tides" "The moon." (map numbered (seq 1 20)).

Definition bare_result : Pdf.ResearchResult :=
  Pdf.mkResult "Tides" "The moon." [].

(** A session: a research that succeeds, then the topic is cleared and
    Enter is pressed. *)
Definition cleared_topic : list event :=
  [TypeApiKey "secret"; TypeQuery "tides"; ClickRun;
   TypeQuery ""; KeyDown "Enter" false].

(** A session: a research that succeeds, then the download button is
    clicked. *)
Definition early_download : list event :=
  [TypeApiKey "secret"; TypeQuery "tides"; ClickRun; ClickDownload].

End Sample.

(* ===================================================================== *)
(** * The last character of a JSON text *)
(* ===================================================================== *)

Module JsonShape.

Import Js.
Open Scope string_scope.

(** The last character of [s] that is not JSON white space. *)
Fixpoint last_nonws (s : string) : option ascii :=
  match s with
  | "" => None
  | String c r =>
      match last_nonws r with
      | Some d => Some d
      | None => if is_json_ws c then None else Some c
      end
  end.

Definition is_digit (c : ascii) : bool :=
  match digit_of c with
  | Some _ => true
  | None => false
  end.

(** The characters a JSON value can end with: a closing brace or bracket, a
    closing quote, the last digit of a number, the last letter of [true],
    [false] or [null]. *)
Definition closes_value (c : ascii) : bool :=
  Ascii.eqb c "}" || Ascii.eqb c "]" || Ascii.eqb c dquote
  || is_digit c || Ascii.eqb c "e" || Ascii.eqb c "l".

(** [ends s r]: [r] is what is left of [s] after a closing character. *)
Definition ends (s r : string) : Prop :=
  exists pre c, s = pre ++ String c r /\ closes_value c = true.

(** No backtick occurs in [s]. *)
Definition no_backtick (s : string) : bool :=
  forallb (fun c => negb (Ascii.eqb c "`")) (list_ascii_of_string s).

End JsonShape.

(* ===================================================================== *)
(** * What the page shows, and the effect that loads the PDF library *)
(* ===================================================================== *)

Module Page.

Import Js App.
Open Scope string_scope.

(** Line 79: the blinking cursor is rendered while
    [displayedText.length < (text?.length || 0)]. *)
Definition cursor {char : Type} (text : list char)
  (st : Typewriter.reveal (char := char)) : bool :=
  (List.length (Typewriter.displayedText st) <? List.length text)%nat.

(** Line 315: [{error && ...}], the banner and the text in it. *)
Definition banner (st : AppState) : option string :=
  match error st with
  | Some msg => if msg =? "" then None else Some msg
  | None => None
  end.

(** Line 325: [{result && ...}], the panel with the download button. *)
Definition panel (st : AppState) : bool :=
  match result st with
  | Some _ => true
  | None => false
  end.

(** Line 339: [{result.sources && result.sources.length > 0 && ...}], the
    list of sources of a well-typed result. *)
Definition lists_sources (r : Pdf.ResearchResult) : bool :=
  match Pdf.sources r with
  | [] => false
  | _ :: _ => true
  end.

(** A value of [groundingAttributions] on which lines 167-172 throw: one
    that is neither [null] nor an array (it has no [map] to call), or an
    array with a [null] entry (reading [attr.web] throws). *)
Definition is_null (v : json) : bool :=
  match v with
  | JNull => true
  | _ => false
  end.

Definition unusable_attributions (v : json) : bool :=
  match v with
  | JNull => false
  | JArr attrs => existsb is_null attrs
  | _ => true
  end.

(** A source object as line 168 builds it, with a truthy title and URI. *)
Definition complete_source (s : json) : Prop :=
  exists t u,
    s = JObj [("title", t); ("uri", u)] /\
    truthy (Some t) = true /\ truthy (Some u) = true.

(** What the [catch] of lines 176-181 shows of an exception:
    [err.message || "An unknown error happened."] *)
Definition shown (e : exn) : string :=
  if message e =? "" then UnknownError else message e.

End Page.

(** ** The effect of lines 91-104

    The children of [document.body] by node identity, and the title.  The
    node made by [createElement] is [script]; it is in no tree yet. *)
Module Mount.

Open Scope string_scope.

Record Document : Type := mkDocument {
  title : string;
  body : list nat
}.

(** [document.body.appendChild(node)]: a node that is already a child is
    moved to the end. *)
Definition appendChild (node : nat) (children : list nat) : list nat :=
  filter (fun n => negb (n =? node)%nat) children ++ [node].

(** [document.body.removeChild(node)] for a node that is a child. *)
Definition removeChild (node : nat) (children : list nat) : list nat :=
  filter (fun n => negb (n =? node)%nat) children.

(** [document.body.contains(node)], for nodes that are direct children. *)
Definition contains (node : nat) (children : list nat) : bool :=
  existsb (fun n => (n =? node)%nat) children.

(** Lines 92-97 *)
Definition mount (script : nat) (d : Document) : Document :=
  mkDocument "Inquestor AI" (appendChild script (body d)).

(** Lines 99-103, the cleanup. *)
Definition unmount (script : nat) (d : Document) : Document :=
  if contains script (body d)
  then mkDocument (title d) (removeChild script (body d))
  else d.

End Mount.

(** ** A visit of the page, event by event

    The request of [startResearch] and its answer are two events, with
    whatever the visitor does in between; the script of lines 91-104 loads
    at some moment or never; and a click on the download button runs
    [downloadPdf] with its [catch] (lines 237-243), the library being free to
    throw from any of its calls. *)
Module Visit.

Import Js App Page.
Open Scope string_scope.

(** How lines 195-236 end: every call returns, or one of them throws an
    [Error] with a message, or throws something that is not an [Error].
    That covers a stored object which is not a [ResearchResult]: reading
    [replace] of a topic that is not a string, say, throws a [TypeError]. *)
Inductive drawing : Type :=
| Returns
| ThrowsError (message : string)
| ThrowsOther.

Definition PdfFailed : string := "Something went wrong making the PDF.".

Definition PdfFailedWith (message : string) : string :=
  "Something went wrong making the PDF: " ++ message.

(** [downloadPdf] as a whole (lines 187-244); [jspdf] tells whether
    [window.jspdf] is defined. *)
Definition downloadPdf (jspdf : bool) (d : drawing) (st : AppState) : AppState :=
  match result st with
  | Some _ =>
      if jspdf then
        match d with
        | Returns => st
        | ThrowsError message => setError (Some (PdfFailedWith message)) st
        | ThrowsOther => setError (Some PdfFailed) st
        end
      else setError (Some PdfNotReady) st
  | None => setError (Some PdfNotReady) st
  end.

Record visit : Type := mkVisit {
  page : AppState;
  awaited : nat;          (* requests sent and not yet settled *)
  jspdf : bool            (* [window.jspdf] is defined *)
}.

Definition opened : visit := mkVisit initial 0 false.

Inductive action : Type :=
| TypeApiKey (k : string)
| TypeQuery (q : string)
| KeyDown (key : string) (shiftKey : bool)
| ClickRun
| Settles (settled : fetched)
| ScriptLoads
| ClickDownload (d : drawing).

Section Actions.

Variable wording : fault -> string.

(** Lines 106-135: the checks, the three setters and the request. *)
Definition submit (v : visit) : visit :=
  match begin (page v) with
  | Refused st => mkVisit st (awaited v) (jspdf v)
  | Sent st _ => mkVisit st (S (awaited v)) (jspdf v)
  end.

Definition act (v : visit) (a : action) : visit :=
  match a with
  | TypeApiKey k => mkVisit (setApiKey k (page v)) (awaited v) (jspdf v)
  | TypeQuery q =>
      if textarea_disabled (page v) then v
      else mkVisit (setQuery q (page v)) (awaited v) (jspdf v)
  | KeyDown key shiftKey =>
      if textarea_disabled (page v) then v
      else if (key =? "Enter") && negb shiftKey then submit v else v
  | ClickRun => if run_disabled (page v) then v else submit v
  | Settles settled =>
      match awaited v with
      | 0 => v
      | S n => mkVisit (settle wording settled (page v)) n (jspdf v)
      end
  | ScriptLoads => mkVisit (page v) (awaited v) true
  | ClickDownload d =>
      if panel (page v)
      then mkVisit (downloadPdf (jspdf v) d (page v)) (awaited v) (jspdf v)
      else v
  end.

Definition acts (v : visit) (l : list action) : visit := fold_left act l v.

End Actions.

End Visit.

(** More sample data. *)
Module Sample2.

Import Js App Sample.
Open Scope string_scope.

Definition hello : list ascii := list_ascii_of_string "hello".

(** A state with the run button enabled. *)
Definition typed_in : AppState := mkApp " tides " "secret" None false None.

(** A fenced answer with a line feed after the closing fence. *)
Definition fenced_newline_body : string :=
  body_of
    (sq "```json\n{\'topic\':\'Tides\',\'summary\':\'The moon.\'}\n```\n")
    no_grounding.

(** Responses without a usable candidate. *)
Definition no_candidates_body : string := sq "{'candidates':[]}".
Definition null_body : string := "null".
Definition html_body : string := "<html>Bad gateway</html>".

(** A candidate without text, and one whose text is a number. *)
Definition no_text_body : string := sq "{'candidates':[{'content':{'parts':[]}}]}".
Definition number_text_body : string :=
  sq "{'candidates':[{'content':{'parts':[{'text':42}]}}]}".

(** A valid answer beside grounding metadata of the wrong shape. *)
Definition bad_grounding_body : string :=
  body_of (sq "{\'topic\':\'Tides\',\'summary\':\'The moon.\'}")
          (sq "{'groundingAttributions':{'web':{'title':'NOAA'}}}").
Definition null_attribution_body : string :=
  body_of (sq "{\'topic\':\'Tides\',\'summary\':\'The moon.\'}")
          (sq "{'groundingAttributions':[null]}").

Definition tides : Pdf.ResearchResult :=
  Pdf.mkResult "Tides" "The moon." [Pdf.mkSource "NOAA" "https://noaa.gov"].

(** The grounding metadata of the first candidate of a body, and its
    attributions. *)
Definition grounding_of (body : string) : json :=
  match prop (candidate_of body) "groundingMetadata" with
  | Some gm => gm
  | None => JNull
  end.

Definition attributions_of (body : string) : json :=
  match prop (grounding_of body) "groundingAttributions" with
  | Some v => v
  | None => JNull
  end.

Definition plain_text : string := sq "{'topic':'Tides','summary':'The moon.'}".

Definition plain_parsed : json :=
  JObj [("topic", JStr "Tides"); ("summary", JStr "The moon.")].

(** An answer with a key the page does not know. *)
Definition chatty_props : list (string * json) :=
  [("confidence", JNum 9 (-1)); ("topic", JStr "Tides");
   ("summary", JStr "The moon.")].

End Sample2.

(* ===================================================================== *)
(** * Theorems: the typewriter *)
(* ===================================================================== *)

Module TypewriterFacts.

Import Typewriter.

Section Reveal.

Context {char : Type}.

Implicit Types text : list char.

(** ** The reveal when every updater runs inside the setter call *)

Lemma firstn_snoc_charAt text (k : nat) :
  k < length text -> firstn k text ++ charAt text k = firstn (S k) text.
Proof.
  revert k. induction text as [|c text IH]; intros k Hk; simpl in Hk.
  - lia.
  - destruct k as [|k].
    + reflexivity.
    + simpl. f_equal. unfold charAt in *. simpl. apply IH. lia.
Qed.

Lemma charAt_out text (k : nat) :
  length text <= k -> charAt text k = [].
Proof.
  intros Hk. unfold charAt.
  destruct (nth_error text k) eqn:E; [|reflexivity].
  assert (k < length text) by (apply nth_error_Some; congruence). lia.
Qed.

Lemma ticks_app text (s1 s2 : list flush) :
  ticks text (s1 ++ s2) = fold_left (tick text) s2 (ticks text s1).
Proof. unfold ticks. apply fold_left_app. Qed.

Lemma eager_ticks text (k : nat) :
  0 < length text -> k <= length text ->
  ticks text (repeat Eager k) = mkReveal k (firstn k text) 0 true.
Proof.
  intros Hpos. induction k as [|k IH]; intros Hk.
  - unfold ticks, start. simpl. destruct text; [simpl in Hpos; lia | reflexivity].
  - replace (repeat Eager (S k)) with (repeat Eager k ++ [Eager])
      by (rewrite <- repeat_cons; reflexivity).
    rewrite ticks_app, IH by lia. simpl.
    unfold tick, callback. simpl.
    destruct (Nat.ltb_spec k (length text)); [|lia].
    unfold render, updater. simpl.
    rewrite firstn_snoc_charAt by lia. reflexivity.
Qed.

Lemma eager_stop text :
  0 < length text ->
  ticks text (repeat Eager (S (length text))) = mkReveal (length text) text 0 false.
Proof.
  intros Hpos.
  replace (repeat Eager (S (length text))) with (repeat Eager (length text) ++ [Eager])
    by (rewrite <- repeat_cons; reflexivity).
  rewrite ticks_app, eager_ticks by lia. simpl.
  unfold tick, callback. simpl.
  rewrite Nat.ltb_irrefl. unfold render. simpl.
  rewrite firstn_all. reflexivity.
Qed.

Lemma tick_stopped text (st : reveal) (sched : list flush) :
  live st = false -> fold_left (tick text) sched st = st.
Proof.
  intros Hst. induction sched as [|w sched IH]; simpl.
  - reflexivity.
  - unfold tick at 2. rewrite Hst. exact IH.
Qed.

(** With every updater run eagerly the reveal is the intended one: after [k]
    firings the display is the prefix of length [k], after [length text]
    firings it is [text], the next firing removes the interval, and nothing
    changes afterwards. *)
Lemma eager_reveal text :
  0 < length text ->
  (forall k, k <= length text ->
     displayedText (ticks text (repeat Eager k)) = firstn k text) /\
  (forall extra,
     ticks text (repeat Eager (S (length text)) ++ extra)
     = mkReveal (length text) text 0 false).
Proof.
  intros Hpos. split.
  - intros k Hk. rewrite eager_ticks by assumption. reflexivity.
  - intros extra. rewrite ticks_app, eager_stop by assumption.
    apply tick_stopped. reflexivity.
Qed.

(** ** The reveal when the last updater runs while rendering *)

Lemma tick_length text (st : reveal) (w : flush) :
  queued st = 0 -> i st <= length text ->
  length (displayedText st) <= i st ->
  let st' := tick text st w in
  queued st' = 0 /\ i st' <= length text /\
  length (displayedText st') <= i st'.
Proof.
  intros Hq Hi Hlen. unfold tick.
  destruct (live st); [|simpl; auto].
  unfold callback. destruct (Nat.ltb_spec (i st) (length text)) as [Hlt|Hge].
  - destruct w; unfold render, setDisplayedText, updater; simpl.
    + rewrite Hq. simpl. rewrite length_app.
      assert (length (charAt text (i st)) <= 1)
        by (unfold charAt; destruct (nth_error text (i st)); simpl; lia).
      lia.
    + rewrite Hq. simpl. rewrite length_app.
      assert (length (charAt text (S (i st))) <= 1)
        by (unfold charAt; destruct (nth_error text (S (i st))); simpl; lia).
      lia.
  - unfold render. simpl. rewrite Hq. simpl. auto.
Qed.

(** After [k <= length text] firings, whatever the schedule, the counter is
    [k], the interval is installed, nothing is queued and the display has at
    most [k] units. *)
Lemma ticks_counter text (sched : list flush) :
  0 < length text -> length sched <= length text ->
  let st := ticks text sched in
  i st = length sched /\ live st = true /\ queued st = 0 /\
  length (displayedText st) <= length sched.
Proof.
  intros Hpos. induction sched as [|w sched IH] using rev_ind; intros Hlen.
  - unfold ticks, start. simpl. destruct text; [simpl in Hpos; lia|]. auto with arith.
  - rewrite length_app in Hlen. simpl in Hlen.
    destruct IH as (Hi & Hl & Hq & Hd); [lia|].
    intros st. subst st. rewrite ticks_app. simpl.
    remember (ticks text sched) as st eqn:Est.
    pose proof (tick_length text st w Hq) as Ht.
    rewrite length_app. simpl.
    unfold tick in *. rewrite Hl in *. unfold callback in *.
    destruct (Nat.ltb_spec (i st) (length text)) as [Hlt|Hge]; [|lia].
    destruct w; unfold render, setDisplayedText, updater in *; simpl in *;
      rewrite Hq in *; simpl in *;
      destruct Ht as (_ & _ & Ht); try lia;
      repeat split; auto; lia.
Qed.

(** When React runs the updater of the last character while rendering, that
    updater reads [i = length text] and appends nothing: the display stays
    shorter than [text], whatever happened before and whatever follows. *)
Lemma deferred_last_incomplete text (sched rest : list flush) :
  0 < length text -> S (length sched) = length text ->
  length (displayedText (ticks text (sched ++ Deferred :: rest))) < length text.
Proof.
  intros Hpos Hlen.
  pose proof (@ticks_counter text sched Hpos ltac:(lia)) as (Hi & Hl & Hq & Hd).
  rewrite ticks_app. simpl.
  remember (ticks text sched) as st eqn:Est.
  assert (Hone : tick text st Deferred
                 = mkReveal (length text) (displayedText st) 0 true).
  { unfold tick. rewrite Hl. unfold callback.
    destruct (Nat.ltb_spec (i st) (length text)); [|lia].
    unfold render, setDisplayedText, updater. simpl. rewrite Hq. simpl.
    rewrite charAt_out by lia. rewrite app_nil_r, Hl. f_equal. lia. }
  rewrite Hone. clear Hone.
  assert (Hfix : forall l b,
    displayedText (fold_left (tick text) l
                     (mkReveal (length text) (displayedText st) 0 b))
    = displayedText st).
  { induction l as [|w l IHl]; intros b; simpl; [reflexivity|].
    unfold tick at 2. simpl. destruct b.
    - unfold callback. simpl. rewrite Nat.ltb_irrefl. unfold render. simpl.
      apply IHl.
    - apply IHl. }
  rewrite Hfix. lia.
Qed.

(** ** The reveal when only the first updater runs inside the setter call *)

Lemma firstn_snoc_charAt_any text (k : nat) :
  firstn k text ++ charAt text k = firstn (S k) text.
Proof.
  destruct (Nat.lt_ge_cases k (length text)) as [Hlt|Hge].
  - apply firstn_snoc_charAt. exact Hlt.
  - rewrite charAt_out by exact Hge. rewrite app_nil_r.
    rewrite !firstn_all2 by lia. reflexivity.
Qed.

Lemma charAt_skipn text (m k : nat) :
  charAt (skipn m text) k = charAt text (m + k).
Proof. unfold charAt. rewrite nth_error_skipn. reflexivity. Qed.

Lemma first_eager_ticks text (k : nat) :
  2 <= length text -> k < length text ->
  ticks text (Eager :: repeat Deferred k)
  = mkReveal (S k) (firstn 1 text ++ firstn k (skipn 2 text)) 0 true.
Proof.
  intros Hlen. induction k as [|k IH]; intros Hk.
  - change (Eager :: repeat Deferred 0) with (repeat Eager 1).
    rewrite eager_ticks by lia. rewrite app_nil_r. reflexivity.
  - replace (Eager :: repeat Deferred (S k))
      with ((Eager :: repeat Deferred k) ++ [Deferred])
      by (simpl; f_equal; symmetry; apply repeat_cons).
    rewrite ticks_app, IH by lia. simpl.
    unfold tick, callback. simpl.
    destruct (Nat.ltb_spec (S k) (length text)); [|lia].
    unfold render, updater. simpl.
    rewrite <- app_assoc.
    change (S (S k)) with (2 + k). rewrite <- charAt_skipn.
    rewrite firstn_snoc_charAt_any. reflexivity.
Qed.

(** With the first updater run eagerly and the others while rendering, the
    second character of every text of two or more characters is skipped:
    the display ends as the text without it, and stays so. *)
Lemma second_character_skipped text (extra : list flush) :
  2 <= length text ->
  ticks text (Eager :: repeat Deferred (length text) ++ extra)
  = mkReveal (length text) (firstn 1 text ++ skipn 2 text) 0 false.
Proof.
  intros Hlen.
  destruct (length text) as [|n] eqn:En; [lia|].
  replace (Eager :: repeat Deferred (S n) ++ extra)
    with ((Eager :: repeat Deferred n) ++ Deferred :: extra)
    by (rewrite <- app_comm_cons; f_equal;
        change (Deferred :: extra) with ([Deferred] ++ extra);
        rewrite app_assoc, <- repeat_cons; reflexivity).
  rewrite ticks_app, first_eager_ticks by lia.
  cbn [fold_left].
  assert (Hlast : forall d,
            tick text (mkReveal (S n) d 0 true) Deferred = mkReveal (S n) d 0 false).
  { intros d. unfold tick, callback. cbn [live i].
    rewrite En, Nat.ltb_irrefl. reflexivity. }
  rewrite Hlast, tick_stopped by reflexivity.
  rewrite (firstn_all2 (n := n) (skipn 2 text)) by (rewrite length_skipn; lia).
  reflexivity.
Qed.

End Reveal.

Import Sample.
Open Scope string_scope.

(** C1.  The reveal of "abc": the first updater runs inside the setter call
    and reads [i = 0]; the later ones run while rendering, after [i++], and
    read the index of the next character.  The display goes "a", "ac", "ac":
    "b" is skipped, the interval is removed with "ac" on the screen, and the
    display never equals the text.  With every updater run while rendering
    the display ends as "bc". *)
Theorem typewriter_skips_a_character :
  map string_of_list_ascii (frames abc react18) = ["a"; "ac"; "ac"] /\
  ticks abc react18 = mkReveal 3 (list_ascii_of_string "ac") 0 false /\
  displayedText (ticks abc react18) <> abc /\
  map string_of_list_ascii (frames abc (repeat Deferred 4)) = ["b"; "bc"; "bc"] /\
  map string_of_list_ascii (frames abc (repeat Eager 4)) = ["a"; "ab"; "abc"].
Proof.
  repeat split; try reflexivity.
  vm_compute. discriminate.
Qed.

End TypewriterFacts.

(* ===================================================================== *)
(** * Theorems: [JSON.parse] needs no more fuel than it is given *)
(* ===================================================================== *)

Module JsonFacts.

Import Js.
Open Scope string_scope.

Local Abbreviation len := String.length.

Lemma skip_ws_length (s : string) : len (skip_ws s) <= len s.
Proof.
  induction s as [|c s IH]; simpl; [lia|].
  destruct (is_json_ws c); simpl; lia.
Qed.

Lemma next_length (s : string) (c : ascii) (r : string) :
  next s = Some (c, r) -> len r < len s.
Proof.
  unfold next. pose proof (skip_ws_length s) as H.
  destruct (skip_ws s) as [|c' r']; [discriminate|].
  intros E. injection E as _ <-. simpl in H. lia.
Qed.

Lemma expect_length (c : ascii) (s r : string) :
  expect c s = Some r -> len r < len s.
Proof.
  unfold expect. destruct (next s) as [[c' r']|] eqn:E; [|discriminate].
  destruct (Ascii.eqb c c'); [|discriminate].
  intros H. injection H as <-. exact (next_length _ E).
Qed.

Lemma strip_prefix_length (p s r : string) :
  strip_prefix p s = Some r -> len r <= len s.
Proof.
  revert s. induction p as [|a p IH]; intros s; simpl.
  - intros E. injection E as <-. lia.
  - destruct s as [|b s]; [discriminate|].
    destruct (Ascii.eqb a b); [|discriminate].
    intros E. apply IH in E. simpl. lia.
Qed.

Lemma digits_length (s : string) (acc : Z) (n : nat) (v : Z) (n' : nat) (r : string) :
  digits acc n s = (v, n', r) -> len r + n' = len s + n.
Proof.
  revert acc n. induction s as [|c s IH]; intros acc n; simpl.
  - intros E. injection E as _ <- <-. reflexivity.
  - destruct (digit_of c).
    + intros E. apply IH in E. lia.
    + intros E. injection E as _ <- <-. reflexivity.
Qed.

Lemma sign_part_length (s : string) (b : bool) (r : string) :
  sign_part s = (b, r) -> len r <= len s.
Proof.
  unfold sign_part. destruct s as [|c s]; [intros E; injection E as _ <-; lia|].
  destruct (Ascii.eqb c "-"); intros E; injection E as _ <-; simpl; lia.
Qed.

Lemma int_part_length (s : string) (v : Z) (r : string) :
  int_part s = Some (v, r) -> len r < len s.
Proof.
  unfold int_part. destruct s as [|c s]; [discriminate|].
  destruct (Ascii.eqb c "0").
  - intros E. injection E as _ <-. simpl. lia.
  - destruct (digits 0 0 (String c s)) as [[v' n'] r'] eqn:D.
    apply digits_length in D. destruct n'; [discriminate|].
    intros E. injection E as _ <-. lia.
Qed.

Lemma frac_part_length (iv : Z) (s : string) (v : Z) (n : nat) (r : string) :
  frac_part iv s = Some (v, n, r) -> len r <= len s.
Proof.
  unfold frac_part. destruct s as [|c s]; [intros E; injection E as _ _ <-; lia|].
  destruct (Ascii.eqb c ".").
  - destruct (digits iv 0 s) as [[v' n'] r'] eqn:D.
    apply digits_length in D. destruct n'; [discriminate|].
    intros E. injection E as _ _ <-. simpl. lia.
  - intros E. injection E as _ _ <-. lia.
Qed.

Lemma exp_sign_length (s : string) (b : bool) (r : string) :
  exp_sign s = (b, r) -> len r <= len s.
Proof.
  unfold exp_sign. destruct s as [|c s]; [intros E; injection E as _ <-; lia|].
  destruct (Ascii.eqb c "-"); [intros E; injection E as _ <-; simpl; lia|].
  destruct (Ascii.eqb c "+"); intros E; injection E as _ <-; simpl; lia.
Qed.

Lemma exp_part_length (s : string) (v : Z) (r : string) :
  exp_part s = Some (v, r) -> len r <= len s.
Proof.
  unfold exp_part. destruct s as [|c s]; [intros E; injection E as _ <-; lia|].
  destruct (Ascii.eqb c "e" || Ascii.eqb c "E").
  - destruct (exp_sign s) as [b r1] eqn:Es. apply exp_sign_length in Es.
    destruct (digits 0 0 r1) as [[v' n'] r'] eqn:D.
    apply digits_length in D. destruct n'; [discriminate|].
    intros E. injection E as _ <-. simpl. lia.
  - intros E. injection E as _ <-. lia.
Qed.

Lemma parse_number_length (s : string) (v : json) (r : string) :
  parse_number s = Some (v, r) -> len r < len s.
Proof.
  unfold parse_number.
  destruct (sign_part s) as [b s1] eqn:E1. apply sign_part_length in E1.
  destruct (int_part s1) as [[iv s2]|] eqn:E2; [|discriminate].
  apply int_part_length in E2.
  destruct (frac_part iv s2) as [[[mv fd] s3]|] eqn:E3; [|discriminate].
  apply frac_part_length in E3.
  destruct (exp_part s3) as [[ev s4]|] eqn:E4; [|discriminate].
  apply exp_part_length in E4.
  intros E. injection E as _ <-. lia.
Qed.

Lemma string_body_length (s : string) (us : list unit16) (r : string) :
  string_body s = Some (us, r) -> len r < len s.
Proof.
  remember (len s) as n eqn:Hn. revert s us r Hn.
  induction n as [n IH] using lt_wf_ind. intros s us r Hn.
  destruct s as [|c s]; [discriminate|]. simpl in Hn.
  cbn [string_body].
  destruct (Ascii.eqb c dquote).
  { intros E. injection E as _ <-. lia. }
  destruct (Ascii.eqb c "\").
  - destruct s as [|e s1]; [discriminate|]. simpl in Hn.
    assert (Hsimple : forall code,
      match string_body s1 with
      | Some (us0, rest) => Some (Escaped code :: us0, rest)
      | None => None
      end = Some (us, r) -> len r < n).
    { intros code. destruct (string_body s1) as [[us0 rest]|] eqn:E0; [|discriminate].
      intros E. injection E as _ <-.
      assert (len rest < len s1) by (eapply (IH (len s1)); [lia|reflexivity|exact E0]).
      lia. }
    repeat (match goal with
            | |- (if ?b then _ else _) = _ -> _ =>
                destruct b; [first [apply Hsimple | idtac]|]
            end); try discriminate.
    destruct s1 as [|h1 [|h2 [|h3 [|h4 r2]]]]; try discriminate.
    destruct (hex4 h1 h2 h3 h4); [|discriminate].
    destruct (string_body r2) as [[us0 rest]|] eqn:E0; [|discriminate].
    intros E. injection E as _ <-.
    assert (len rest < len r2)
      by (eapply (IH (len r2)); [simpl in Hn; lia|reflexivity|exact E0]).
    simpl in Hn. lia.
  - destruct (nat_of_ascii c <? 32)%nat; [discriminate|].
    destruct (string_body s) as [[us0 rest]|] eqn:E0; [|discriminate].
    intros E. injection E as _ <-.
    assert (len rest < len s) by (eapply (IH (len s)); [lia|reflexivity|exact E0]).
    lia.
Qed.

Lemma parse_string_length (s str r : string) :
  parse_string s = Some (str, r) -> len r < len s.
Proof.
  unfold parse_string. destruct (string_body s) as [[us rest]|] eqn:E; [|discriminate].
  intros H. injection H as _ <-. exact (string_body_length _ E).
Qed.

(** One unfolding of each of the three readers. *)
Lemma parse_value_S (fuel : nat) (s : string) :
  parse_value (S fuel) s
  = match next s with
    | None => None
    | Some (c, r) =>
        if Ascii.eqb c "{" then
          match expect "}" r with
          | Some r' => Some (JObj [], r')
          | None => parse_members fuel [] r
          end
        else if Ascii.eqb c "[" then
          match expect "]" r with
          | Some r' => Some (JArr [], r')
          | None => parse_elements fuel [] r
          end
        else if Ascii.eqb c dquote then
          match parse_string r with
          | Some (str, r') => Some (JStr str, r')
          | None => None
          end
        else if Ascii.eqb c "t" then
          option_map (fun r' => (JBool true, r')) (strip_prefix "rue" r)
        else if Ascii.eqb c "f" then
          option_map (fun r' => (JBool false, r')) (strip_prefix "alse" r)
        else if Ascii.eqb c "n" then
          option_map (fun r' => (JNull, r')) (strip_prefix "ull" r)
        else parse_number (String c r)
    end.
Proof. reflexivity. Qed.

Lemma parse_elements_S (fuel : nat) (acc : list json) (s : string) :
  parse_elements (S fuel) acc s
  = match parse_value fuel s with
    | Some (v, r) =>
        match next r with
        | Some (c, r') =>
            if Ascii.eqb c "," then parse_elements fuel (acc ++ [v]) r'
            else if Ascii.eqb c "]" then Some (JArr (acc ++ [v]), r')
            else None
        | None => None
        end
    | None => None
    end.
Proof. reflexivity. Qed.

Lemma parse_members_S (fuel : nat) (acc : list (string * json)) (s : string) :
  parse_members (S fuel) acc s
  = match expect dquote s with
    | Some r =>
        match parse_string r with
        | Some (k, r1) =>
            match expect ":" r1 with
            | Some r2 =>
                match parse_value fuel r2 with
                | Some (v, r3) =>
                    match next r3 with
                    | Some (c, r4) =>
                        if Ascii.eqb c "," then parse_members fuel (assign k v acc) r4
                        else if Ascii.eqb c "}" then Some (JObj (assign k v acc), r4)
                        else None
                    | None => None
                    end
                | None => None
                end
            | None => None
            end
        | None => None
        end
    | None => None
    end.
Proof. reflexivity. Qed.

(** Every reader that succeeds has consumed a character. *)
Lemma parse_consumes (fuel : nat) :
  (forall s v r, parse_value fuel s = Some (v, r) -> len r < len s) /\
  (forall acc s v r, parse_elements fuel acc s = Some (v, r) -> len r < len s) /\
  (forall acc s v r, parse_members fuel acc s = Some (v, r) -> len r < len s).
Proof.
  induction fuel as [|fuel (IHv & IHe & IHm)].
  - repeat split; intros; discriminate.
  - split; [|split].
    + intros s v r. rewrite parse_value_S.
      destruct (next s) as [[c r0]|] eqn:En; [|discriminate].
      apply next_length in En.
      destruct (Ascii.eqb c "{").
      { destruct (expect "}" r0) as [r'|] eqn:Ex.
        - apply expect_length in Ex. intros E. injection E as _ <-. lia.
        - intros E. apply IHm in E. lia. }
      destruct (Ascii.eqb c "[").
      { destruct (expect "]" r0) as [r'|] eqn:Ex.
        - apply expect_length in Ex. intros E. injection E as _ <-. lia.
        - intros E. apply IHe in E. lia. }
      destruct (Ascii.eqb c dquote).
      { destruct (parse_string r0) as [[str r']|] eqn:Es; [|discriminate].
        apply parse_string_length in Es. intros E. injection E as _ <-. lia. }
      destruct (Ascii.eqb c "t").
      { destruct (strip_prefix "rue" r0) as [r'|] eqn:Ep; [|discriminate].
        apply strip_prefix_length in Ep. intros E. injection E as _ <-. lia. }
      destruct (Ascii.eqb c "f").
      { destruct (strip_prefix "alse" r0) as [r'|] eqn:Ep; [|discriminate].
        apply strip_prefix_length in Ep. intros E. injection E as _ <-. lia. }
      destruct (Ascii.eqb c "n").
      { destruct (strip_prefix "ull" r0) as [r'|] eqn:Ep; [|discriminate].
        apply strip_prefix_length in Ep. intros E. injection E as _ <-. lia. }
      intros E. apply parse_number_length in E. simpl in E. lia.
    + intros acc s v r. rewrite parse_elements_S.
      destruct (parse_value fuel s) as [[v0 r0]|] eqn:Ev; [|discriminate].
      apply IHv in Ev.
      destruct (next r0) as [[c r1]|] eqn:En; [|discriminate].
      apply next_length in En.
      destruct (Ascii.eqb c ",").
      { intros E. apply IHe in E. lia. }
      destruct (Ascii.eqb c "]"); [|discriminate].
      intros E. injection E as _ <-. lia.
    + intros acc s v r. rewrite parse_members_S.
      destruct (expect dquote s) as [r0|] eqn:E0; [|discriminate].
      apply expect_length in E0.
      destruct (parse_string r0) as [[k r1]|] eqn:E1; [|discriminate].
      apply parse_string_length in E1.
      destruct (expect ":" r1) as [r2|] eqn:E2; [|discriminate].
      apply expect_length in E2.
      destruct (parse_value fuel r2) as [[v0 r3]|] eqn:E3; [|discriminate].
      apply IHv in E3.
      destruct (next r3) as [[c r4]|] eqn:E4; [|discriminate].
      apply next_length in E4.
      destruct (Ascii.eqb c ",").
      { intros E. apply IHm in E. lia. }
      destruct (Ascii.eqb c "}"); [|discriminate].
      intros E. injection E as _ <-. lia.
Qed.

(** A reading that succeeds with some fuel succeeds, with the same result,
    with any fuel above twice the length of the text. *)
Lemma parse_fuel (fuel : nat) :
  (forall s res g,
     parse_value fuel s = Some res -> 2 * len s + 1 <= g ->
     parse_value g s = Some res) /\
  (forall acc s res g,
     parse_elements fuel acc s = Some res -> 2 * len s + 2 <= g ->
     parse_elements g acc s = Some res) /\
  (forall acc s res g,
     parse_members fuel acc s = Some res -> 2 * len s + 2 <= g ->
     parse_members g acc s = Some res).
Proof.
  induction fuel as [|fuel (IHv & IHe & IHm)].
  - repeat split; intros; discriminate.
  - split; [|split].
    + intros s res [|g] E Hg; [lia|].
      rewrite parse_value_S in *.
      destruct (next s) as [[c r0]|] eqn:En; [|discriminate].
      apply next_length in En.
      destruct (Ascii.eqb c "{").
      { destruct (expect "}" r0); [exact E|]. apply IHm; [exact E|lia]. }
      destruct (Ascii.eqb c "[").
      { destruct (expect "]" r0); [exact E|]. apply IHe; [exact E|lia]. }
      exact E.
    + intros acc s res [|g] E Hg; [lia|].
      rewrite parse_elements_S in *.
      destruct (parse_value fuel s) as [[v0 r0]|] eqn:Ev; [|discriminate].
      pose proof (proj1 (parse_consumes fuel) _ _ _ Ev) as Hc.
      rewrite (IHv _ _ g Ev) by lia.
      destruct (next r0) as [[c r1]|] eqn:En; [|discriminate].
      apply next_length in En.
      destruct (Ascii.eqb c ","); [|exact E].
      apply IHe; [exact E|lia].
    + intros acc s res [|g] E Hg; [lia|].
      rewrite parse_members_S in *.
      destruct (expect dquote s) as [r0|] eqn:E0; [|discriminate].
      apply expect_length in E0.
      destruct (parse_string r0) as [[k r1]|] eqn:E1; [|discriminate].
      apply parse_string_length in E1.
      destruct (expect ":" r1) as [r2|] eqn:E2; [|discriminate].
      apply expect_length in E2.
      destruct (parse_value fuel r2) as [[v0 r3]|] eqn:E3; [|discriminate].
      pose proof (proj1 (parse_consumes fuel) _ _ _ E3) as Hc.
      rewrite (IHv _ _ g E3) by lia.
      destruct (next r3) as [[c r4]|] eqn:E4; [|discriminate].
      apply next_length in E4.
      destruct (Ascii.eqb c ","); [|exact E].
      apply IHm; [exact E|lia].
Qed.

(** [JSON_parse] accepts a text exactly when the reader accepts it with some
    amount of fuel: a [None] of [JSON_parse] is a syntax error, never a lack
    of fuel. *)
Theorem JSON_parse_adequate (s : string) (v : json) :
  JSON_parse s = Some v <->
  exists fuel r, parse_value fuel s = Some (v, r) /\ skip_ws r = "".
Proof.
  unfold JSON_parse. split.
  - destruct (parse_value (2 * len s + 2) s) as [[v0 r]|] eqn:E; [|discriminate].
    destruct (skip_ws r) eqn:Er; [|discriminate].
    intros H. injection H as <-. exists (2 * len s + 2), r. auto.
  - intros (fuel & r & E & Er).
    rewrite (proj1 (parse_fuel fuel) s (v, r) (2 * len s + 2) E) by lia.
    rewrite Er. reflexivity.
Qed.

End JsonFacts.

(* ===================================================================== *)
(** * Theorems: the built-ins *)
(* ===================================================================== *)

Module JsFacts.

Import Js.
Open Scope string_scope.

Lemma lookup_assign_same (k : string) (v : json) (props : list (string * json)) :
  lookup k (assign k v props) = Some v.
Proof.
  induction props as [|[k' v'] props IH]; simpl.
  - rewrite String.eqb_refl. reflexivity.
  - destruct (k =? k') eqn:E; simpl.
    + rewrite String.eqb_refl. reflexivity.
    + rewrite E. exact IH.
Qed.

Lemma lookup_assign_other (k k' : string) (v : json) (props : list (string * json)) :
  k' <> k -> lookup k' (assign k v props) = lookup k' props.
Proof.
  intros Hne. induction props as [|[k0 v0] props IH]; simpl.
  - apply String.eqb_neq in Hne. rewrite Hne. reflexivity.
  - destruct (k =? k0) eqn:E; simpl.
    + apply String.eqb_eq in E. subst k0.
      apply String.eqb_neq in Hne. rewrite Hne. reflexivity.
    + destruct (k' =? k0); [reflexivity | exact IH].
Qed.

Lemma length_append (s t : string) :
  String.length (s ++ t) = String.length s + String.length t.
Proof. induction s as [|c s IH]; simpl; [reflexivity | rewrite IH; reflexivity]. Qed.

(** The closing pattern removes the three backticks that end a string. *)
Lemma strip_close_fenced (inner : string) :
  strip_close (inner ++ "```") = inner.
Proof.
  induction inner as [|c inner IH].
  - reflexivity.
  - change (String c inner ++ "```") with (String c (inner ++ "```")).
    cbn [strip_close].
    destruct (String c (inner ++ "```") =? "```") eqn:E.
    + apply String.eqb_eq in E.
      apply (f_equal String.length) in E. simpl in E.
      rewrite length_append in E. simpl in E. lia.
    + rewrite IH. reflexivity.
Qed.

(** A text wrapped in the two markers is unwrapped exactly. *)
Lemma strip_fence_wrapped (inner : string) :
  strip_fence ("```json" ++ LF ++ inner ++ "```") = inner.
Proof.
  unfold strip_fence.
  replace (strip_open ("```json" ++ LF ++ inner ++ "```")) with (inner ++ "```")
    by reflexivity.
  apply strip_close_fenced.
Qed.

(** On a text that starts with the opening marker the two readings of the
    stripping agree. *)
Lemma strip_fence_leading (t rest : string) :
  strip_prefix "```json" t = Some rest -> strip_fence t = strip_wrapper t.
Proof.
  intros H. unfold strip_fence, strip_wrapper.
  destruct t as [|c t]; [discriminate|].
  cbn [strip_open]. rewrite H. reflexivity.
Qed.

(** The opening marker is removed wherever it stands. *)
Example strip_open_inside :
  strip_fence "[1,```json 2]" = "[1, 2]" /\
  strip_wrapper "[1,```json 2]" = "[1,```json 2]".
Proof. split; reflexivity. Qed.

(** ** White space *)

Lemma first_match_some (ws : list string) (s r : string) :
  first_match ws s = Some r ->
  exists w, In w ws /\ strip_prefix w s = Some r.
Proof.
  induction ws as [|w ws IH]; simpl; [discriminate|].
  destruct (strip_prefix w s) as [r'|] eqn:E.
  - intros H. injection H as <-. exists w. split; [left; reflexivity | exact E].
  - intros H. destruct (IH H) as [w' [Hin Hw']].
    exists w'. split; [right; exact Hin | exact Hw'].
Qed.

Lemma first_match_none (ws : list string) (s : string) :
  first_match ws s = None <-> forall w, In w ws -> strip_prefix w s = None.
Proof.
  induction ws as [|w ws IH]; simpl.
  - split; [intros _ w [] | reflexivity].
  - destruct (strip_prefix w s) as [r'|] eqn:E.
    + split; [discriminate|].
      intros H. rewrite (H w) in E by (left; reflexivity). discriminate.
    + rewrite IH. split.
      * intros H w' [<-|Hin]; [exact E | exact (H w' Hin)].
      * intros H w' Hin. apply H. right. exact Hin.
Qed.

Lemma white_space_shaped (w : string) :
  In w (map encoded white_space) -> shaped w = true.
Proof.
  assert (H : forallb shaped (map encoded white_space) = true)
    by (vm_compute; reflexivity).
  rewrite forallb_forall in H. apply H.
Qed.

(** A white-space character has a first byte and only continuation bytes
    after it. *)
Lemma space_at_some (s r : string) :
  space_at s = Some r ->
  exists a x s', s = String a s' /\ In (String a x) (map encoded white_space) /\
                 continued x = true /\ strip_prefix x s' = Some r.
Proof.
  intros H. apply first_match_some in H. destruct H as [w [Hin Hw]].
  pose proof (@white_space_shaped _ Hin) as Hs.
  destruct w as [|a x]; [discriminate|].
  destruct s as [|b s']; [discriminate|].
  simpl in Hw. destruct (Ascii.eqb a b) eqn:E; [|discriminate].
  apply Ascii.eqb_eq in E. subst b.
  exists a, x, s'. split; [reflexivity|]. split; [exact Hin|]. split; [|exact Hw].
  simpl in Hs. apply andb_true_iff in Hs. apply Hs.
Qed.

Lemma space_at_shorter (s r : string) :
  space_at s = Some r -> String.length r < String.length s.
Proof.
  intros H. apply space_at_some in H.
  destruct H as [a [x [s' [-> [_ [_ H]]]]]].
  apply JsonFacts.strip_prefix_length in H. simpl. lia.
Qed.

(** No white-space character starts with an underscore. *)
Lemma space_at_underscore (r : string) : space_at (String "_" r) = None.
Proof.
  apply first_match_none. intros w Hin.
  pose proof (@white_space_shaped _ Hin) as Hs.
  destruct w as [|a x]; [discriminate|].
  simpl in Hs. simpl.
  destruct (Ascii.eqb a "_"); [|reflexivity].
  rewrite andb_false_r in Hs. discriminate.
Qed.

(** The fuel of the three scans is enough. *)
Lemma all_spaces_fuel (f g : nat) (s : string) :
  String.length s <= f -> String.length s <= g -> all_spaces f s = all_spaces g s.
Proof.
  revert g s. induction f as [|f IH]; intros g s Hf Hg.
  - destruct s; [|simpl in Hf; lia]. destruct g; reflexivity.
  - destruct s as [|c s]; [destruct g; reflexivity|].
    destruct g as [|g]; [simpl in Hg; lia|].
    cbn [all_spaces]. destruct (space_at (String c s)) as [r|] eqn:E; [|reflexivity].
    apply space_at_shorter in E. apply IH; lia.
Qed.

Lemma skip_spaces_fuel (f g : nat) (s : string) :
  String.length s <= f -> String.length s <= g ->
  skip_spaces f s = skip_spaces g s.
Proof.
  revert g s. induction f as [|f IH]; intros g s Hf Hg.
  - destruct s; [|simpl in Hf; lia]. destruct g; reflexivity.
  - destruct g as [|g].
    + destruct s; [reflexivity | simpl in Hg; lia].
    + cbn [skip_spaces]. destruct (space_at s) as [r|] eqn:E; [|reflexivity].
      apply space_at_shorter in E. apply IH; lia.
Qed.

Lemma replace_spaces_fuel (f g : nat) (s : string) :
  String.length s <= f -> String.length s <= g ->
  replace_spaces f s = replace_spaces g s.
Proof.
  revert g s. induction f as [|f IH]; intros g s Hf Hg.
  - destruct s; [|simpl in Hf; lia]. destruct g; reflexivity.
  - destruct g as [|g].
    + destruct s; [reflexivity | simpl in Hg; lia].
    + cbn [replace_spaces]. destruct (space_at s) as [r|] eqn:E.
      * apply space_at_shorter in E. f_equal. apply IH; lia.
      * destruct s as [|c s]; [reflexivity|]. simpl in Hf, Hg.
        f_equal. apply IH; lia.
Qed.

(** The scans by their equations. *)
Lemma trimStart_space (s r : string) :
  space_at s = Some r -> trimStart s = trimStart r.
Proof.
  intros E. unfold trimStart.
  destruct s as [|c s]; [discriminate|].
  cbn [String.length skip_spaces]. rewrite E.
  apply space_at_shorter in E. simpl in E.
  apply skip_spaces_fuel; lia.
Qed.

Lemma trimStart_other (s : string) : space_at s = None -> trimStart s = s.
Proof.
  intros E. unfold trimStart.
  destruct (String.length s); [reflexivity|].
  cbn [skip_spaces]. rewrite E. reflexivity.
Qed.

Lemma underscore_spaces_space (s r : string) :
  space_at s = Some r ->
  underscore_spaces s = String "_" (underscore_spaces r).
Proof.
  intros E. unfold underscore_spaces.
  destruct s as [|c s]; [discriminate|].
  cbn [String.length replace_spaces]. rewrite E.
  apply space_at_shorter in E. simpl in E.
  f_equal. apply replace_spaces_fuel; lia.
Qed.

Lemma underscore_spaces_other (c : ascii) (s : string) :
  space_at (String c s) = None ->
  underscore_spaces (String c s) = String c (underscore_spaces s).
Proof.
  intros E. unfold underscore_spaces.
  cbn [String.length replace_spaces]. rewrite E. reflexivity.
Qed.

(** A text of white space only is trimmed to nothing. *)
Lemma blank_skipped (f : nat) (s : string) :
  all_spaces f s = true -> skip_spaces f s = "".
Proof.
  revert s. induction f as [|f IH]; intros s.
  - destruct s; [reflexivity | discriminate].
  - destruct s as [|c s]; [reflexivity|].
    cbn [all_spaces skip_spaces].
    destruct (space_at (String c s)) as [r|]; [apply IH | discriminate].
Qed.

Lemma trim_blank (s : string) : only_white_space s = true -> trim s = "".
Proof.
  intros H. unfold trim, trimStart.
  rewrite (@blank_skipped _ _ H). reflexivity.
Qed.

(** A text that trims to nothing is white space only. *)
Lemma skipped_blank (f : nat) (s : string) :
  String.length s <= f -> skip_spaces f s = "" -> all_spaces f s = true.
Proof.
  revert s. induction f as [|f IH]; intros s Hf.
  - destruct s; [reflexivity | simpl in Hf; lia].
  - destruct s as [|c s]; [reflexivity|].
    cbn [all_spaces skip_spaces].
    destruct (space_at (String c s)) as [r|] eqn:E; [|discriminate].
    apply space_at_shorter in E. apply IH. lia.
Qed.

Lemma trimEnd_empty (s : string) :
  trimEnd s = "" -> only_white_space s = true.
Proof.
  destruct s as [|c s]; [reflexivity|].
  cbn [trimEnd]. destruct (only_white_space (String c s)); [reflexivity | discriminate].
Qed.

(** What [trimStart] leaves is empty or starts with no white space. *)
Lemma skip_spaces_stops (f : nat) (s : string) :
  String.length s <= f ->
  skip_spaces f s = "" \/ space_at (skip_spaces f s) = None.
Proof.
  revert s. induction f as [|f IH]; intros s Hf.
  - destruct s; [left; reflexivity | simpl in Hf; lia].
  - cbn [skip_spaces]. destruct (space_at s) as [r|] eqn:E.
    + apply space_at_shorter in E. apply IH. lia.
    + right. exact E.
Qed.

Lemma blank_starts (s : string) :
  only_white_space s = true -> s = "" \/ space_at s <> None.
Proof.
  unfold only_white_space. intros H. destruct s as [|c s]; [left; reflexivity|].
  right. cbn [String.length all_spaces] in H.
  destruct (space_at (String c s)); [discriminate | discriminate].
Qed.

(** [trim] gives the empty string exactly on white space. *)
Lemma trim_empty_iff (s : string) :
  trim s = "" <-> only_white_space s = true.
Proof.
  split; [|apply trim_blank].
  unfold trim. intros H. apply trimEnd_empty in H.
  destruct (@skip_spaces_stops (String.length s) s (le_n _)) as [E|E];
    fold (trimStart s) in E.
  - apply skipped_blank; [apply le_n | exact E].
  - destruct (@blank_starts _ H) as [E'|E'].
    + apply skipped_blank; [apply le_n | exact E'].
    + contradiction.
Qed.

(** A run of continuation bytes that the replaced text shows was in the
    text already. *)
Lemma continued_kept (x tail : string) :
  continued x = true -> detached tail = true ->
  forall f t r,
    strip_prefix x (replace_spaces f t ++ tail) = Some r ->
    exists r', strip_prefix x t = Some r'.
Proof.
  intros Hx Htail. induction x as [|b x IH]; intros f t r H.
  - exists t. reflexivity.
  - simpl in Hx. apply andb_true_iff in Hx. destruct Hx as [Hb Hx].
    assert (Hstop : strip_prefix (String b x) tail = Some r -> False).
    { destruct tail as [|c tail]; [discriminate|]. simpl.
      destruct (Ascii.eqb b c) eqn:E; [|discriminate].
      apply Ascii.eqb_eq in E. subst c. simpl in Htail.
      rewrite Hb in Htail. discriminate. }
    destruct f as [|f]; [exfalso; exact (Hstop H)|].
    cbn [replace_spaces] in H.
    destruct (space_at t) as [r1|] eqn:E.
    + simpl in H. destruct (Ascii.eqb b "_") eqn:Eb; [|discriminate].
      apply Ascii.eqb_eq in Eb. subst b. discriminate.
    + destruct t as [|c t]; [exfalso; exact (Hstop H)|].
      simpl in H. simpl.
      destruct (Ascii.eqb b c); [|discriminate].
      exact (IH Hx f t r H).
Qed.

(** Replacing leaves no white space, whatever the bytes of the text. *)
Lemma replace_spaces_no_space (tail : string) :
  detached tail = true -> no_space tail = true ->
  forall f s, no_space (replace_spaces f s ++ tail) = true.
Proof.
  intros Htail Hclean. induction f as [|f IH]; intros s; [exact Hclean|].
  cbn [replace_spaces].
  destruct (space_at s) as [r|] eqn:E.
  - change (String "_" (replace_spaces f r) ++ tail)
      with (String "_" (replace_spaces f r ++ tail)).
    cbn [no_space]. rewrite space_at_underscore. apply IH.
  - destruct s as [|c s]; [exact Hclean|].
    change (String c (replace_spaces f s) ++ tail)
      with (String c (replace_spaces f s ++ tail)).
    cbn [no_space].
    destruct (space_at (String c (replace_spaces f s ++ tail))) as [r|] eqn:E';
      [|apply IH].
    exfalso. apply space_at_some in E'.
    destruct E' as [a [x [s' [Hs [Hin [Hx Hr]]]]]].
    injection Hs as <- <-.
    destruct (@continued_kept x tail Hx Htail f s r Hr) as [r' Hr'].
    assert (Hm : strip_prefix (String c x) (String c s) = Some r')
      by (simpl; rewrite Ascii.eqb_refl; exact Hr').
    unfold space_at in E. rewrite first_match_none in E.
    rewrite (E _ Hin) in Hm. discriminate.
Qed.

Lemma replace_spaces_length (f : nat) (s : string) :
  String.length (replace_spaces f s) <= String.length s.
Proof.
  revert s. induction f as [|f IH]; intros s; [simpl; lia|].
  cbn [replace_spaces]. destruct (space_at s) as [r|] eqn:E.
  - apply space_at_shorter in E. specialize (IH r). simpl. lia.
  - destruct s as [|c s]; [simpl; lia|]. specialize (IH s). simpl. lia.
Qed.

(** A text without white space is its own file name. *)
Lemma replace_spaces_clean (f : nat) (s : string) :
  String.length s <= f -> no_space s = true -> replace_spaces f s = s.
Proof.
  revert s. induction f as [|f IH]; intros s Hf H.
  - destruct s; [reflexivity | simpl in Hf; lia].
  - destruct s as [|c s]; [reflexivity|].
    cbn [replace_spaces]. cbn [no_space] in H.
    destruct (space_at (String c s)); [discriminate|].
    simpl in Hf. f_equal. apply IH; [lia | exact H].
Qed.

(** The no-break space is white space of [trim] and of [\s]; zero has more
    than one spelling. *)
Example white_space_beyond_ascii :
  let nbsp := String "194" (String "160" "") in
  trim (nbsp ++ " tide" ++ nbsp) = "tide" /\
  trim nbsp = "" /\
  underscore_spaces ("High" ++ nbsp ++ "tide") = "High_tide" /\
  truthy (Some (JNum 1 (-400))) = false /\
  truthy (Some (JNum 5 (-324))) = true /\
  truthy (Some (JNum 0 3)) = false.
Proof. vm_compute. repeat split; reflexivity. Qed.

End JsFacts.

(* ===================================================================== *)
(** * Theorems: [startResearch] *)
(* ===================================================================== *)

Module ResearchFacts.

Import Js App Sample JsFacts.
Open Scope string_scope.

Section Research.

Variable wording : fault -> string.

Lemma begin_valid (st : AppState) :
  apiKey st <> "" -> query st <> "" ->
  begin st = Sent (in_flight st) (request st).
Proof.
  intros Hk Hq. unfold begin.
  apply String.eqb_neq in Hk. apply String.eqb_neq in Hq.
  rewrite Hk, Hq. reflexivity.
Qed.

Lemma startResearch_valid (fetch : Request -> fetched) (st : AppState) :
  apiKey st <> "" -> query st <> "" ->
  startResearch wording fetch st
  = (settle wording (fetch (request st)) (in_flight st), [request st]).
Proof.
  intros Hk Hq. unfold startResearch. rewrite begin_valid by assumption.
  reflexivity.
Qed.

(** What [attempt] computes once the response carries a candidate. *)
Lemma attempt_candidate (response : Response) (data candidate : json) :
  ok response = true ->
  JSON_parse (body response) = Some data ->
  data <> JNull ->
  opt_prop (prop data "candidates") "0" = Some candidate ->
  truthy (Some candidate) = true ->
  attempt wording (Resolved response)
  = (parsedContent <- parse_content (raw_text candidate) ;;
     srcs <- extract_sources wording candidate ;;
     ret (assemble parsedContent srcs)).
Proof.
  intros Hok Hdata Hnull Hcand Htruthy. unfold attempt.
  rewrite Hok, Hdata. cbn [negb].
  assert (Hm : member wording data "candidates" = inr (prop data "candidates"))
    by (destruct data; try reflexivity; congruence).
  rewrite Hm. unfold bind at 1. rewrite Hcand.
  rewrite Htruthy. reflexivity.
Qed.

(** A value reaches [setResult] only along one path. *)
Lemma attempt_success (settled : fetched) (r : json) :
  attempt wording settled = inr r ->
  exists response data candidate text parsedContent srcs,
    settled = Resolved response /\
    ok response = true /\
    JSON_parse (body response) = Some data /\
    opt_prop (prop data "candidates") "0" = Some candidate /\
    truthy (Some candidate) = true /\
    raw_text candidate = JStr text /\
    JSON_parse (strip_fence text) = Some parsedContent /\
    extract_sources wording candidate = inr srcs /\
    r = assemble parsedContent srcs.
Proof.
  unfold attempt. destruct settled as [msg|response]; [discriminate|].
  destruct (ok response) eqn:Hok; cbn [negb]; [|discriminate].
  destruct (JSON_parse (body response)) as [data|] eqn:Hdata; [|discriminate].
  destruct (member wording data "candidates") as [e|cands] eqn:Hm;
    [discriminate|].
  unfold bind at 1.
  destruct (opt_prop cands "0") as [candidate|] eqn:Hcand; [|discriminate].
  destruct (truthy (Some candidate)) eqn:Htruthy; cbn [negb];
    [|discriminate].
  unfold parse_content.
  destruct (raw_text candidate) as [| | |text| |] eqn:Hraw; try discriminate.
  destruct (JSON_parse (strip_fence text)) as [parsedContent|] eqn:Hparse;
    [|discriminate].
  unfold ret at 1. unfold bind at 1.
  destruct (extract_sources wording candidate) as [e|srcs] eqn:Hsrc;
    [discriminate|].
  unfold bind, ret. intros Hr. injection Hr as Hr.
  exists response, data, candidate, text, parsedContent, srcs.
  assert (cands = prop data "candidates")
    by (destruct data; unfold member, ret, throw in Hm; congruence).
  subst cands. repeat split; auto.
Qed.

(** The state [settle] leaves, by the outcome of [attempt]. *)
Lemma settle_success (settled : fetched) (st : AppState) (r : json) :
  attempt wording settled = inr r ->
  settle wording settled st = mkApp (query st) (apiKey st) (Some r) false (error st).
Proof. intros H. unfold settle. rewrite H. reflexivity. Qed.

Lemma settle_failure (settled : fetched) (st : AppState) (e : exn) :
  attempt wording settled = inl e ->
  settle wording settled st
  = mkApp (query st) (apiKey st) (result st) false
          (Some (if message e =? "" then UnknownError else message e)).
Proof. intros H. unfold settle. rewrite H. reflexivity. Qed.

(** The extraction of sources throws only engine errors. *)
Lemma map_sources_platform (attrs : list json) (e : exn) :
  map_sources wording attrs = inl e -> kind e = Platform.
Proof.
  induction attrs as [|a attrs IH]; simpl; [discriminate|].
  unfold to_source, member.
  destruct (map_sources wording attrs) as [e'|mapped].
  - destruct a; unfold bind, ret, throw, engine; simpl; intros He;
      injection He as He; subst e; auto.
  - destruct a; unfold bind, ret, throw, engine; simpl; intros He;
      try discriminate; injection He as He; subst e; reflexivity.
Qed.

Lemma extract_sources_platform (candidate : json) (e : exn) :
  extract_sources wording candidate = inl e -> kind e = Platform.
Proof.
  unfold extract_sources.
  destruct (opt_prop (prop candidate "groundingMetadata") "groundingAttributions")
    as [[| | | |attrs|]|]; unfold bind, ret, throw, engine;
    try discriminate;
    try (intros He; injection He as He; subst e; reflexivity).
  destruct (map_sources wording attrs) as [e'|mapped] eqn:Hmap; [|discriminate].
  intros He. injection He as He. subst e'.
  exact (map_sources_platform _ Hmap).
Qed.

(** ** Input checks *)

(** C4.  A submission with an empty credential or an empty topic sends no
    request: [startResearch] returns with one of the two missing-input
    messages as the error, every other state variable as it was, and an
    empty list of requests, whatever the network would have answered. *)
Theorem missing_input_sends_nothing (fetch : Request -> fetched) (st : AppState) :
  apiKey st = "" \/ query st = "" ->
  exists msg,
    (msg = MissingApiKey \/ msg = MissingTopic) /\
    startResearch wording fetch st = (setError (Some msg) st, []).
Proof.
  intros H. unfold startResearch, begin.
  destruct (apiKey st =? "") eqn:Hk.
  - exists MissingApiKey. split; [left|]; reflexivity.
  - destruct H as [H|H].
    + apply String.eqb_neq in Hk. contradiction.
    + rewrite H. simpl. exists MissingTopic. split; [right|]; reflexivity.
Qed.

(** C9.  A topic and a credential made of white space only are not empty
    strings: the checks of [startResearch] pass and the request is sent.  The
    run button is disabled for them, because its condition trims, so a click
    sends nothing; Enter in the text area calls [startResearch] directly and
    the request goes out. *)
Theorem blank_input_is_sent (fetch : Request -> fetched) (st : AppState) :
  query st <> "" -> apiKey st <> "" ->
  only_white_space (query st) = true ->
  only_white_space (apiKey st) = true ->
  (trim (query st) = "" /\ trim (apiKey st) = "") /\
  snd (startResearch wording fetch st) = [request st] /\
  run_disabled st = true /\
  snd (onClick wording fetch st) = [] /\
  snd (onKeyDown wording "Enter" false fetch st) = [request st].
Proof.
  intros Hq Hk Hqs Hks.
  assert (Hsent : snd (startResearch wording fetch st) = [request st])
    by (rewrite startResearch_valid by assumption; reflexivity).
  assert (Hdis : run_disabled st = true).
  { unfold run_disabled. rewrite (@trim_blank _ Hqs), (@trim_blank _ Hks).
    simpl. apply orb_true_r. }
  split; [split; apply trim_blank; assumption|].
  split; [exact Hsent|]. split; [exact Hdis|]. split.
  - unfold onClick. rewrite Hdis. reflexivity.
  - unfold onKeyDown. simpl. exact Hsent.
Qed.

(** ** Error and result *)

(** C3, as the code has it.  A call that passes the input checks clears
    [error] and [result] before the request, so neither is set while it is in
    flight, and ends with exactly one of them set: [result] and no [error]
    when the [try] block returns a value, [error] and no [result] when it
    throws.  A response with a status outside 200-299 ends with the message
    of [HttpError] and no result. *)
Theorem dispatched_call_sets_one_of_two (fetch : Request -> fetched) (st : AppState) :
  apiKey st <> "" -> query st <> "" ->
  let st' := fst (startResearch wording fetch st) in
  begin st = Sent (in_flight st) (request st) /\
  result (in_flight st) = None /\ error (in_flight st) = None /\
  ((exists r, attempt wording (fetch (request st)) = inr r /\
              result st' = Some r /\ error st' = None) \/
   (exists e msg, attempt wording (fetch (request st)) = inl e /\
                  result st' = None /\ error st' = Some msg /\ msg <> "")) /\
  (forall response,
     fetch (request st) = Resolved response -> ok response = false ->
     result st' = None /\
     error st' = Some ("API call failed! Status: " ++ decimal (status response))).
Proof.
  intros Hk Hq st'. subst st'.
  rewrite startResearch_valid by assumption. cbn [fst].
  split; [apply begin_valid; assumption|].
  split; [reflexivity|]. split; [reflexivity|]. split.
  - destruct (attempt wording (fetch (request st))) as [e|r] eqn:Ha.
    + right. exists e, (if message e =? "" then UnknownError else message e).
      rewrite (settle_failure _ _ Ha). repeat split.
      destruct (message e =? "") eqn:Hm.
      * discriminate.
      * apply String.eqb_neq. exact Hm.
    + left. exists r. rewrite (settle_success _ _ Ha). repeat split.
  - intros response Hf Hok. unfold settle, attempt. rewrite Hf, Hok. simpl.
    split; reflexivity.
Qed.

(** ** The answer *)

(** C2, as the code has it.  [startResearch] stores a result only when the
    response has a success status, its body parses, it has a truthy first
    candidate, the answer text is a string that parses as JSON after the
    fence is stripped, and the sources are extracted; the result is then the
    parsed value spread into an object with [sources] added, and no error is
    shown.  When the [try] block throws, no result is stored and an error is
    shown.  Which keys the parsed value has is not checked. *)
Theorem result_only_after_parse (fetch : Request -> fetched) (st : AppState) :
  apiKey st <> "" -> query st <> "" ->
  let st' := fst (startResearch wording fetch st) in
  (forall r, result st' = Some r ->
     exists response data candidate text parsedContent srcs,
       fetch (request st) = Resolved response /\
       ok response = true /\
       JSON_parse (body response) = Some data /\
       opt_prop (prop data "candidates") "0" = Some candidate /\
       truthy (Some candidate) = true /\
       raw_text candidate = JStr text /\
       JSON_parse (strip_fence text) = Some parsedContent /\
       extract_sources wording candidate = inr srcs /\
       r = assemble parsedContent srcs /\
       error st' = None) /\
  (forall e, attempt wording (fetch (request st)) = inl e ->
     result st' = None /\ error st' <> None).
Proof.
  intros Hk Hq st'. subst st'.
  rewrite startResearch_valid by assumption. cbn [fst]. split.
  - intros r Hr.
    destruct (attempt wording (fetch (request st))) as [e|r'] eqn:Ha.
    + rewrite (settle_failure _ _ Ha) in Hr. discriminate.
    + rewrite (settle_success _ _ Ha) in *. simpl in Hr.
      injection Hr as Hr. subst r'.
      destruct (attempt_success _ Ha)
        as (response & data & candidate & text & parsed & srcs & H).
      exists response, data, candidate, text, parsed, srcs.
      decompose [and] H. repeat split; auto.
  - intros e Ha. rewrite (settle_failure _ _ Ha). split; [reflexivity|discriminate].
Qed.

(** C5, as the code has it.  For a response that reaches the answer
    (success status, parsed body, truthy first candidate) whose answer text
    is the string [text]: the [try] block throws [MalformedContent] exactly
    when [JSON.parse] rejects [strip_fence text], the text without the first
    occurrence of the opening marker and without a closing marker at its
    end; it then stores nothing and shows the weird-format message.  A text
    wrapped in the two markers is stripped to what is between them, and on
    every text that starts with the opening marker the stripping is the one
    of the specification. *)
Theorem malformed_iff_parse_fails
  (response : Response) (data candidate : json) (text : string) :
  ok response = true ->
  JSON_parse (body response) = Some data ->
  data <> JNull ->
  opt_prop (prop data "candidates") "0" = Some candidate ->
  truthy (Some candidate) = true ->
  raw_text candidate = JStr text ->
  ((exists e, attempt wording (Resolved response) = inl e /\
              kind e = MalformedContent)
   <-> JSON_parse (strip_fence text) = None) /\
  (JSON_parse (strip_fence text) = None ->
   forall st,
     settle wording (Resolved response) (in_flight st)
     = mkApp (query st) (apiKey st) None false (Some WeirdFormat)) /\
  (forall inner, strip_fence ("```json" ++ LF ++ inner ++ "```") = inner) /\
  (forall t rest, strip_prefix "```json" t = Some rest ->
                  strip_fence t = strip_wrapper t).
Proof.
  intros Hok Hdata Hnull Hcand Htruthy Hraw.
  pose proof (@attempt_candidate response data candidate
                Hok Hdata Hnull Hcand Htruthy) as Ha.
  rewrite Hraw in Ha. unfold parse_content in Ha.
  split; [|split; [|split]].
  - split.
    + intros (e & He & Hkind).
      destruct (JSON_parse (strip_fence text)) as [parsed|] eqn:Hp; [|reflexivity].
      rewrite Ha in He. unfold ret at 1 in He. unfold bind at 1 in He.
      destruct (extract_sources wording candidate) as [e'|srcs] eqn:Hsrc;
        [|discriminate].
      unfold bind in He. injection He as He. subst e'.
      rewrite (extract_sources_platform _ Hsrc) in Hkind. discriminate.
    + intros Hp. rewrite Hp in Ha.
      exists (mkExn MalformedContent WeirdFormat). split; [exact Ha|reflexivity].
  - intros Hp st. rewrite Hp in Ha. unfold settle. rewrite Ha. reflexivity.
  - apply strip_fence_wrapped.
  - apply strip_fence_leading.
Qed.

(** ** Sources *)

(** The callback of [map] on a well-typed attribution, against [cited]. *)
Lemma to_source_cited (a : Attribution) :
  exists src,
    to_source wording (of_Attribution a) = inr src /\
    match cited a with
    | Some s => complete src = true /\ src = of_Source s
    | None => complete src = false
    end.
Proof.
  destruct a as [[[[t|] [u|]]|]]; unfold to_source, cited; simpl;
    unfold bind, ret; simpl; eexists; (split; [reflexivity|]).
  - destruct (t =? "") eqn:Ht; destruct (u =? "") eqn:Hu; simpl;
      unfold complete; simpl; rewrite ?Ht, ?Hu; simpl; auto.
  - destruct (t =? "") eqn:Ht; unfold complete; simpl; reflexivity.
  - destruct (u =? "") eqn:Hu; unfold complete; simpl; rewrite ?Hu; reflexivity.
  - reflexivity.
  - reflexivity.
Qed.

Lemma map_sources_typed (attrs : list Attribution) :
  exists mapped,
    map_sources wording (map of_Attribution attrs) = inr mapped /\
    filter complete mapped = map of_Source (citations attrs).
Proof.
  induction attrs as [|a attrs (mapped & Hmap & Hfil)].
  - exists []. split; reflexivity.
  - destruct (to_source_cited a) as (src & Hsrc & Hc).
    exists (src :: mapped). split.
    + cbn [map map_sources]. rewrite Hsrc, Hmap. reflexivity.
    + cbn [filter citations]. destruct (cited a) as [s|].
      * destruct Hc as [Hc Hs]. rewrite Hc, Hfil, Hs. reflexivity.
      * rewrite Hc. exact Hfil.
Qed.

Lemma citations_In (attrs : list Attribution) (s : Pdf.Source) :
  In s (citations attrs) <->
  exists a, In a attrs /\
            web a = Some (mkWeb (Some (Pdf.title s)) (Some (Pdf.uri s))) /\
            Pdf.title s <> "" /\ Pdf.uri s <> "".
Proof.
  assert (Hc : forall a, cited a = Some s <->
            web a = Some (mkWeb (Some (Pdf.title s)) (Some (Pdf.uri s))) /\
            Pdf.title s <> "" /\ Pdf.uri s <> "").
  { intros [[[[t|] [u|]]|]]; unfold cited; simpl;
      try (split; [discriminate | intros (Hw & _); discriminate]).
    destruct (t =? "") eqn:Ht; destruct (u =? "") eqn:Hu; simpl;
      (split; [intros Hs; try discriminate
              |intros (Hw & Ht' & Hu'); injection Hw as -> ->]).
    - apply String.eqb_eq in Ht. contradiction.
    - apply String.eqb_eq in Ht. contradiction.
    - apply String.eqb_eq in Hu. contradiction.
    - injection Hs as <-. simpl.
      apply String.eqb_neq in Ht. apply String.eqb_neq in Hu. auto.
    - destruct s; reflexivity. }
  induction attrs as [|a attrs IH]; simpl.
  - split; [contradiction | intros (a & [] & _)].
  - destruct (cited a) as [s'|] eqn:Ha.
    + simpl. split.
      * intros [->|Hin].
        -- exists a. split; [left; reflexivity | apply Hc; exact Ha].
        -- apply IH in Hin. destruct Hin as (a' & Hin & H').
           exists a'. split; [right; exact Hin | exact H'].
      * intros (a' & [<-|Hin] & H').
        -- left. apply Hc in H'. congruence.
        -- right. apply IH. exists a'. split; assumption.
    + split.
      * intros Hin. apply IH in Hin. destruct Hin as (a' & Hin & H').
        exists a'. split; [right; exact Hin | exact H'].
      * intros (a' & [<-|Hin] & H').
        -- apply Hc in H'. congruence.
        -- apply IH. exists a'. split; assumption.
Qed.

(** The callback of [map] on any attribution that is not [null]. *)
Lemma to_source_raw (attr : json) :
  attr <> JNull -> to_source wording attr = inr (source_of attr).
Proof. intros H. destruct attr; try reflexivity. congruence. Qed.

Lemma map_sources_raw (attrs : list json) :
  ~ In JNull attrs -> map_sources wording attrs = inr (map source_of attrs).
Proof.
  induction attrs as [|attr attrs IH]; intros H; [reflexivity|].
  cbn [map_sources map].
  rewrite to_source_raw by (intros ->; apply H; left; reflexivity).
  rewrite IH by (intros Hin; apply H; right; exact Hin).
  reflexivity.
Qed.

(** [a || ''] is truthy exactly when it is not the empty string. *)
Lemma or_else_empty (a : option json) :
  truthy (Some (or_else a (JStr ""))) = negb (empty (or_else a (JStr ""))).
Proof.
  destruct a as [v|]; [|reflexivity]. unfold or_else.
  destruct (truthy (Some v)) eqn:E; [|reflexivity].
  rewrite E. destruct v as [| | | [|c s] | |]; simpl in *; congruence.
Qed.

Lemma empty_false (v : json) : empty v = false <-> v <> JStr "".
Proof.
  destruct v as [| | | [|c s] | |]; simpl; split; congruence.
Qed.

Lemma kept_iff (attr : json) :
  kept attr = true <-> title_of attr <> JStr "" /\ uri_of attr <> JStr "".
Proof.
  unfold kept. rewrite andb_true_iff, !negb_true_iff, !empty_false. reflexivity.
Qed.

(** The test of [filter] on a mapped source is the test on its attribution. *)
Lemma complete_source_of (attr : json) : complete (source_of attr) = kept attr.
Proof.
  unfold complete, kept, source_of.
  change (prop (JObj [("title", title_of attr); ("uri", uri_of attr)]) "uri")
    with (Some (uri_of attr)).
  change (prop (JObj [("title", title_of attr); ("uri", uri_of attr)]) "title")
    with (Some (title_of attr)).
  unfold title_of, uri_of. rewrite !or_else_empty. apply andb_comm.
Qed.

Lemma filter_complete_mapped (attrs : list json) :
  filter complete (map source_of attrs) = sources_of attrs.
Proof.
  unfold sources_of. induction attrs as [|attr attrs IH]; [reflexivity|].
  cbn [map filter]. rewrite complete_source_of.
  destruct (kept attr); cbn [map]; rewrite IH; reflexivity.
Qed.

(** What a kept attribution carries is what its source shows. *)
Lemma kept_reads (attr : json) :
  kept attr = true ->
  opt_prop (prop attr "web") "title" = Some (title_of attr) /\
  opt_prop (prop attr "web") "uri" = Some (uri_of attr).
Proof.
  assert (H : forall a, or_else a (JStr "") <> JStr "" ->
                        a = Some (or_else a (JStr ""))).
  { intros [v|]; unfold or_else; [|congruence].
    destruct (truthy (Some v)); [reflexivity | congruence]. }
  intros Hk. apply kept_iff in Hk. destruct Hk as [Ht Hu].
  split; apply H; assumption.
Qed.

Lemma of_Attribution_not_null (typed : list Attribution) :
  ~ In JNull (map of_Attribution typed).
Proof.
  intros H. apply in_map_iff in H. destruct H as (a & Ha & _). discriminate.
Qed.

(** C6.  For a candidate whose grounding metadata lists the attributions
    [attrs], whatever JSON values other than [null] they are and whatever
    keys they have in whatever order, every attribution is mapped to a
    source and the extracted list is, in order, the sources whose title and
    URI are both not the empty string.  A source is in the list exactly when
    it is the source of such an attribution, and it then shows the title and
    the URI that the attribution carries under [web].  On attributions of
    the declared type the list is the one of [citations].  A candidate
    without grounding metadata, or whose metadata has no attributions, gives
    the empty list and no exception. *)
Theorem citations_extracted (candidate gm : json) (attrs : list json) :
  prop candidate "groundingMetadata" = Some gm ->
  gm <> JNull ->
  prop gm "groundingAttributions" = Some (JArr attrs) ->
  ~ In JNull attrs ->
  extract_sources wording candidate = inr (sources_of attrs) /\
  (forall s, In s (sources_of attrs) <->
     exists attr, In attr attrs /\ s = source_of attr /\
                  title_of attr <> JStr "" /\ uri_of attr <> JStr "") /\
  (forall attr, kept attr = true ->
     opt_prop (prop attr "web") "title" = Some (title_of attr) /\
     opt_prop (prop attr "web") "uri" = Some (uri_of attr)) /\
  (forall typed, attrs = map of_Attribution typed ->
     sources_of attrs = map of_Source (citations typed) /\
     forall s, In s (citations typed) <->
       exists a, In a typed /\
                 web a = Some (mkWeb (Some (Pdf.title s)) (Some (Pdf.uri s))) /\
                 Pdf.title s <> "" /\ Pdf.uri s <> "") /\
  (forall c, opt_prop (prop c "groundingMetadata") "groundingAttributions" = None ->
             extract_sources wording c = inr []).
Proof.
  intros Hgm Hnull Hattrs Hin. split; [|split; [|split; [|split]]].
  - unfold extract_sources. rewrite Hgm.
    assert (Hop : opt_prop (Some gm) "groundingAttributions" = Some (JArr attrs))
      by (destruct gm; try exact Hattrs; congruence).
    rewrite Hop, (map_sources_raw _ Hin). unfold bind, ret.
    rewrite filter_complete_mapped. reflexivity.
  - intros s. unfold sources_of. rewrite in_map_iff. split.
    + intros (attr & <- & Hf). apply filter_In in Hf. destruct Hf as [Hi Hk].
      exists attr. split; [exact Hi|]. split; [reflexivity|].
      apply kept_iff. exact Hk.
    + intros (attr & Hi & -> & Hk). exists attr. split; [reflexivity|].
      apply filter_In. split; [exact Hi | apply kept_iff; exact Hk].
  - exact kept_reads.
  - intros typed ->. split; [|intros s; apply citations_In].
    destruct (map_sources_typed typed) as (mapped & Hmap & Hfil).
    rewrite (map_sources_raw _ (of_Attribution_not_null typed)) in Hmap.
    injection Hmap as <-. rewrite <- Hfil. symmetry.
    apply filter_complete_mapped.
  - intros c Hc. unfold extract_sources. rewrite Hc. reflexivity.
Qed.

(** C10.  The object stored by a call that succeeds has, under [sources],
    the list extracted from the grounding metadata of the candidate, also
    when the parsed answer has a [sources] key of its own; under every other
    key it has what the parsed answer has under that key, and nothing where
    the parsed answer has nothing. *)
Theorem sources_overridden (fetch : Request -> fetched) (st : AppState) (r : json) :
  apiKey st <> "" -> query st <> "" ->
  result (fst (startResearch wording fetch st)) = Some r ->
  exists response data candidate text parsedContent srcs,
    fetch (request st) = Resolved response /\
    JSON_parse (body response) = Some data /\
    opt_prop (prop data "candidates") "0" = Some candidate /\
    raw_text candidate = JStr text /\
    JSON_parse (strip_fence text) = Some parsedContent /\
    extract_sources wording candidate = inr srcs /\
    prop r "sources" = Some (JArr srcs) /\
    (forall k, k <> "sources" -> prop r k = lookup k (spread parsedContent)) /\
    (forall props, parsedContent = JObj props ->
       forall k, k <> "sources" -> prop r k = lookup k props).
Proof.
  intros Hk Hq Hr.
  rewrite startResearch_valid in Hr by assumption. cbn [fst] in Hr.
  destruct (attempt wording (fetch (request st))) as [e|r'] eqn:Ha.
  - rewrite (settle_failure _ _ Ha) in Hr. discriminate.
  - rewrite (settle_success _ _ Ha) in Hr. simpl in Hr.
    injection Hr as Hr. subst r'.
    destruct (attempt_success _ Ha)
      as (response & data & candidate & text & parsed & srcs & H).
    decompose [and] H. clear H. subst r.
    exists response, data, candidate, text, parsed, srcs.
    repeat split; auto.
    + unfold assemble. cbn [prop]. apply lookup_assign_same.
    + intros k Hne. unfold assemble. cbn [prop].
      apply lookup_assign_other. exact Hne.
    + intros props -> k Hne. unfold assemble. cbn [prop spread].
      apply lookup_assign_other. exact Hne.
Qed.

End Research.

(** ** Worked cases *)

Lemma missing_input_case :
  (apiKey (mkApp "tides" "" None false None) = "" \/
   query (mkApp "tides" "" None false None) = "") /\
  exists msg,
    (msg = MissingApiKey \/ msg = MissingTopic) /\
    startResearch v8 (answers fenced_body) (mkApp "tides" "" None false None)
    = (setError (Some msg) (mkApp "tides" "" None false None), []).
Proof.
  split.
  - left. reflexivity.
  - apply missing_input_sends_nothing. left. reflexivity.
Defined.

Lemma blank_input_case :
  (query blank <> "" /\ apiKey blank <> "" /\
   only_white_space (query blank) = true /\
   only_white_space (apiKey blank) = true) /\
  (trim (query blank) = "" /\ trim (apiKey blank) = "") /\
  snd (startResearch v8 (answers fenced_body) blank) = [request blank] /\
  run_disabled blank = true /\
  snd (onClick v8 (answers fenced_body) blank) = [] /\
  snd (onKeyDown v8 "Enter" false (answers fenced_body) blank) = [request blank].
Proof.
  split.
  - repeat split; try reflexivity; discriminate.
  - apply blank_input_is_sent; try reflexivity; discriminate.
Defined.

(** C3, as stated, fails: after a research that succeeded, a click on the
    download button before the PDF library has loaded sets the error next to
    the stored result; so does clearing the topic and pressing Enter, which
    returns at line 113 with the earlier result still stored. *)
Lemma error_beside_result :
  (exists st r,
     run (number := Pdf.Z_Number) v8 (answers fenced_body) None initial
       early_download = Some st /\
     result st = Some r /\ error st = Some PdfNotReady) /\
  (exists st r,
     run (number := Pdf.Z_Number) v8 (answers fenced_body) None initial
       cleared_topic = Some st /\
     result st = Some r /\ error st = Some MissingTopic).
Proof.
  split; do 2 eexists; vm_compute; repeat split.
Qed.

Lemma dispatched_call_case :
  (apiKey ready <> "" /\ query ready <> "") /\
  let st' := fst (startResearch v8 (answers fenced_body) ready) in
  begin ready = Sent (in_flight ready) (request ready) /\
  result (in_flight ready) = None /\ error (in_flight ready) = None /\
  ((exists r, attempt v8 (answers fenced_body (request ready)) = inr r /\
              result st' = Some r /\ error st' = None) \/
   (exists e msg, attempt v8 (answers fenced_body (request ready)) = inl e /\
                  result st' = None /\ error st' = Some msg /\ msg <> "")) /\
  (forall response,
     answers fenced_body (request ready) = Resolved response ->
     ok response = false ->
     result st' = None /\
     error st' = Some ("API call failed! Status: " ++ decimal (status response))).
Proof.
  split.
  - split; discriminate.
  - apply (dispatched_call_sets_one_of_two v8 (answers fenced_body) ready);
      discriminate.
Defined.

(** C2, as stated, fails: an answer that is valid JSON without a [summary]
    key is stored as a result, with no error. *)
Lemma partial_answer_is_stored :
  exists r,
    result (fst (startResearch v8 (answers partial_body) ready)) = Some r /\
    error (fst (startResearch v8 (answers partial_body) ready)) = None /\
    prop r "topic" = Some (JStr "Tides") /\
    prop r "summary" = None.
Proof.
  eexists. vm_compute. repeat split.
Qed.

Lemma result_only_after_parse_case :
  (apiKey ready <> "" /\ query ready <> "") /\
  let st' := fst (startResearch v8 (answers fenced_body) ready) in
  (forall r, result st' = Some r ->
     exists response data candidate text parsedContent srcs,
       answers fenced_body (request ready) = Resolved response /\
       ok response = true /\
       JSON_parse (body response) = Some data /\
       opt_prop (prop data "candidates") "0" = Some candidate /\
       truthy (Some candidate) = true /\
       raw_text candidate = JStr text /\
       JSON_parse (strip_fence text) = Some parsedContent /\
       extract_sources v8 candidate = inr srcs /\
       r = assemble parsedContent srcs /\
       error st' = None) /\
  (forall e, attempt v8 (answers fenced_body (request ready)) = inl e ->
     result st' = None /\ error st' <> None).
Proof.
  split.
  - split; discriminate.
  - apply (result_only_after_parse v8 (answers fenced_body) ready); discriminate.
Defined.

Lemma malformed_case :
  (ok (mkResponse 200 fenced_body) = true /\
   JSON_parse (body (mkResponse 200 fenced_body)) = Some fenced_data /\
   fenced_data <> JNull /\
   opt_prop (prop fenced_data "candidates") "0" = Some fenced_candidate /\
   truthy (Some fenced_candidate) = true /\
   raw_text fenced_candidate = JStr fenced_text) /\
  ((exists e, attempt v8 (Resolved (mkResponse 200 fenced_body)) = inl e /\
              kind e = MalformedContent)
   <-> JSON_parse (strip_fence fenced_text) = None) /\
  (JSON_parse (strip_fence fenced_text) = None ->
   forall st,
     settle v8 (Resolved (mkResponse 200 fenced_body)) (in_flight st)
     = mkApp (query st) (apiKey st) None false (Some WeirdFormat)) /\
  (forall inner, strip_fence ("```json" ++ LF ++ inner ++ "```") = inner) /\
  (forall t rest, strip_prefix "```json" t = Some rest ->
                  strip_fence t = strip_wrapper t).
Proof.
  split.
  - repeat split; try (vm_compute; reflexivity). discriminate.
  - apply (malformed_iff_parse_fails v8 (mkResponse 200 fenced_body)
             (data := fenced_data) (candidate := fenced_candidate));
      try (vm_compute; reflexivity). discriminate.
Defined.

(** C5, as stated, fails: the answer [[1,```json 2]] has no leading marker
    and is not JSON, yet the call succeeds, because the marker is removed
    from the middle of the text and what is left parses. *)
Lemma marker_inside_is_stripped :
  raw_text (candidate_of inside_body) = JStr inside_text /\
  strip_wrapper inside_text = inside_text /\
  JSON_parse (strip_wrapper inside_text) = None /\
  attempt v8 (answers inside_body (request ready))
  = inr (JObj [("0", JNum 1 0); ("1", JNum 2 0); ("sources", JArr [])]) /\
  fst (startResearch v8 (answers inside_body) ready)
  = mkApp "tides" "secret"
      (Some (JObj [("0", JNum 1 0); ("1", JNum 2 0); ("sources", JArr [])]))
      false None.
Proof. repeat split; vm_compute; reflexivity. Qed.

(** The answer of [prose_body] is not JSON: the call fails as a whole. *)
Example prose_is_malformed :
  attempt v8 (answers prose_body (request ready))
  = inl (mkExn MalformedContent WeirdFormat) /\
  fst (startResearch v8 (answers prose_body) ready)
  = mkApp "tides" "secret" None false (Some WeirdFormat).
Proof. split; vm_compute; reflexivity. Qed.

Lemma citations_case :
  (prop mixed_candidate "groundingMetadata"
   = Some (JObj [("webSearchQueries", JArr [JStr "tides"]);
                 ("groundingAttributions", JArr mixed_attributions)]) /\
   JObj [("webSearchQueries", JArr [JStr "tides"]);
         ("groundingAttributions", JArr mixed_attributions)] <> JNull /\
   prop (JObj [("webSearchQueries", JArr [JStr "tides"]);
               ("groundingAttributions", JArr mixed_attributions)])
        "groundingAttributions"
   = Some (JArr mixed_attributions) /\
   ~ In JNull mixed_attributions) /\
  List.length mixed_attributions = 7 /\
  extract_sources v8 mixed_candidate
  = inr [of_Source (Pdf.mkSource "NOAA" "https://noaa.gov");
         of_Source (Pdf.mkSource "Tide tables" "https://tides.example")].
Proof.
  assert (Hin : ~ In JNull mixed_attributions)
    by (intros H; vm_compute in H; intuition discriminate).
  split; [|split].
  - repeat split; try (vm_compute; reflexivity); [discriminate | exact Hin].
  - reflexivity.
  - change [of_Source (Pdf.mkSource "NOAA" "https://noaa.gov");
            of_Source (Pdf.mkSource "Tide tables" "https://tides.example")]
      with (sources_of mixed_attributions).
    apply (@citations_extracted v8 mixed_candidate
             (JObj [("webSearchQueries", JArr [JStr "tides"]);
                    ("groundingAttributions", JArr mixed_attributions)])
             mixed_attributions);
      try (vm_compute; reflexivity); [discriminate | exact Hin].
Defined.

(** The whole call on the fenced answer with two attributions, one of them
    without a URI: the stored sources are exactly the complete one. *)
Example fenced_answer_is_stored :
  fst (startResearch v8 (answers fenced_body) ready)
  = mkApp "tides" "secret"
      (Some (JObj [("topic", JStr "Tides"); ("summary", JStr "The moon.");
                   ("sources",
                    JArr [of_Source (Pdf.mkSource "NOAA" "https://noaa.gov")])]))
      false None.
Proof. vm_compute. reflexivity. Qed.

Lemma sources_overridden_case :
  (apiKey ready <> "" /\ query ready <> "" /\
   result (fst (startResearch v8 (answers rival_body) ready)) = Some rival_result) /\
  exists response data candidate text parsedContent srcs,
    answers rival_body (request ready) = Resolved response /\
    JSON_parse (body response) = Some data /\
    opt_prop (prop data "candidates") "0" = Some candidate /\
    raw_text candidate = JStr text /\
    JSON_parse (strip_fence text) = Some parsedContent /\
    extract_sources v8 candidate = inr srcs /\
    prop rival_result "sources" = Some (JArr srcs) /\
    (forall k, k <> "sources" ->
       prop rival_result k = lookup k (spread parsedContent)) /\
    (forall props, parsedContent = JObj props ->
       forall k, k <> "sources" -> prop rival_result k = lookup k props).
Proof.
  split.
  - repeat split; try (vm_compute; reflexivity); discriminate.
  - apply (@sources_overridden v8 (answers rival_body) ready rival_result);
      try discriminate. vm_compute. reflexivity.
Defined.

End ResearchFacts.

(* ===================================================================== *)
(** * Theorems: [downloadPdf] *)
(* ===================================================================== *)

Module PdfFacts.

Import Js App Sample.
Import Pdf.
Open Scope string_scope.
Open Scope list_scope.

Section Layout.

Context {num : Type} {number : Number num}.

Variable pdf : jsPDF (num := num).
Variable pageWidth : num.

(** The calls of one entry: the calls of the page-break check on the
    document as it stands, then the title at the cursor the check leaves,
    then the link. *)
Lemma entry_calls (d : doc) (s : Source) :
  exists y,
    calls (entry pdf pageWidth d s)
    = calls d ++ break_calls pdf (lit 12) d
      ++ [setTextColor 0 0 0;
          text (title s) margin (break_cursor pdf (lit 12) d)
               (Some (mkOptions None
                        (Some (sub pageWidth (mul margin (lit 2))))));
          setTextColor 0 0 255;
          textWithLink (uri s) margin y (uri s)].
Proof.
  unfold entry, page_break, break_calls, break_cursor, emit, advance.
  destruct (overflows pdf (lit 12) d); simpl; eexists;
    repeat rewrite <- app_assoc; reflexivity.
Qed.

Lemma heading_calls (d : doc) :
  calls (before_entries pdf d)
  = calls d ++ break_calls pdf (lit 10) d
    ++ [setFontSize 14; setFont "helvetica" "bold";
        text "Sources" margin (break_cursor pdf (lit 10) d) None;
        setFontSize 10; setFont "helvetica" "normal"].
Proof.
  unfold before_entries, heading, page_break, break_calls, break_cursor,
    emit, advance.
  destruct (overflows pdf (lit 10) d); simpl;
    repeat rewrite <- app_assoc; reflexivity.
Qed.

(** The calls of the loop: nothing before it is touched, and what it adds
    reads back as the sources, in order, with no heading among them. *)
Lemma entries_calls (srcs : list Source) (d : doc) :
  exists added,
    calls (fold_left (entry pdf pageWidth) srcs d) = calls d ++ added /\
    filter is_heading added = [] /\
    forall rest, written_entries (added ++ rest) = srcs ++ written_entries rest.
Proof.
  revert d. induction srcs as [|s srcs IH]; intros d.
  - exists []. simpl. rewrite app_nil_r. auto.
  - simpl. destruct (IH (entry pdf pageWidth d s)) as (added & Hc & Hh & He).
    destruct (entry_calls d s) as (y & Hy).
    rewrite Hc, Hy. repeat rewrite <- app_assoc.
    eexists. split; [reflexivity|]. split.
    + unfold break_calls. destruct (overflows pdf (lit 12) d); simpl; exact Hh.
    + intros rest. repeat rewrite <- app_assoc.
      unfold break_calls. destruct (overflows pdf (lit 12) d); simpl;
        rewrite He; destruct s; reflexivity.
Qed.

Lemma fold_left_split (before after : list Source) (s : Source) (d : doc) :
  fold_left (entry pdf pageWidth) (before ++ s :: after) d
  = fold_left (entry pdf pageWidth) after
      (entry pdf pageWidth (fold_left (entry pdf pageWidth) before d) s).
Proof. rewrite fold_left_app. reflexivity. Qed.

End Layout.

Section Document.

Context {num : Type} {number : Number num}.

(** C8.  The calls of an export, read back.

    Without sources the document is the title and the summary followed by
    [save]: no heading, no entry, no link.

    With sources the heading is written once; it is preceded by the calls
    of the page-break check made on the document as it stands after the
    summary, and it is written at the cursor that check leaves (the top
    margin when it adds a page).

    In both cases the entries read back from the calls are the sources of
    the result, each once, in their order.

    Every entry is preceded by the calls of the page-break check made on
    the document as it stands after the entries before it, and its title is
    written at the cursor that check leaves. *)
Theorem export_sources_section (pdf : jsPDF (num := num)) (result : ResearchResult) :
  let pageWidth := getWidth pdf [] in
  let top := head pdf pageWidth result in
  let cs := export pdf result in
  (sources result = [] ->
     cs = calls top ++ [save (underscore_spaces (topic result) ++ ".pdf")%string] /\
     filter is_heading cs = [] /\
     written_links cs = []) /\
  (sources result <> [] ->
     List.length (filter is_heading cs) = 1 /\
     exists rest,
       cs = calls top ++ break_calls pdf (lit 10) top
            ++ [setFontSize 14; setFont "helvetica" "bold";
                text "Sources" margin (break_cursor pdf (lit 10) top) None]
            ++ rest) /\
  written_entries cs = sources result /\
  (forall before s after,
     sources result = before ++ s :: after ->
     let d := fold_left (entry pdf pageWidth) before (before_entries pdf top) in
     exists rest,
       cs = calls d ++ break_calls pdf (lit 12) d
            ++ [setTextColor 0 0 0;
                text (title s) margin (break_cursor pdf (lit 12) d)
                     (Some (mkOptions None
                              (Some (sub pageWidth (mul margin (lit 2))))))]
            ++ rest).
Proof.
  intros pageWidth top cs.
  assert (Htop : exists y1 y2 lines,
            calls top
            = [setTextColor 0 0 0; setFontSize 20; setFont "helvetica" "bold";
               text (topic result) y1 margin
                    (Some (mkOptions (Some center)
                             (Some (sub pageWidth (mul margin (lit 2))))));
               setFontSize 12; setFont "helvetica" "normal";
               textLines lines margin y2])
    by (do 3 eexists; reflexivity).
  destruct Htop as (y1 & y2 & lines & Htop).
  assert (Hcs : cs = calls (sources_section pdf pageWidth (sources result) top)
                     ++ [save (underscore_spaces (topic result) ++ ".pdf")%string])
    by reflexivity.
  destruct (sources result) as [|s0 srcs] eqn:Hsrc.
  - (* no sources *)
    cbn [sources_section] in Hcs.
    split; [|split; [|split]].
    + intros _. split; [exact Hcs|]. rewrite Hcs, Htop. split; reflexivity.
    + intros Hne. contradiction.
    + rewrite Hcs, Htop. reflexivity.
    + intros before s after Hs. destruct before; discriminate.
  - (* some sources *)
    unfold sources_section in Hcs. pose proof Hcs as Hcs'.
    destruct (entries_calls pdf pageWidth (s0 :: srcs) (before_entries pdf top))
      as (added & Hadd & Hhead & Hent).
    rewrite Hadd, heading_calls in Hcs.
    split; [intros Hnil; discriminate|].
    split; [|split].
    + intros _. split.
      * rewrite Hcs, Htop. repeat rewrite filter_app. rewrite Hhead.
        unfold break_calls. destruct (overflows pdf (lit 10) top); reflexivity.
      * eexists. rewrite Hcs. repeat rewrite <- app_assoc. reflexivity.
    + rewrite Hcs, Htop. repeat rewrite <- app_assoc.
      unfold break_calls. destruct (overflows pdf (lit 10) top); simpl;
        rewrite Hent; simpl; rewrite app_nil_r; reflexivity.
    + intros before s after Hs d.
      assert (Hfold : calls (fold_left (entry pdf pageWidth) (s0 :: srcs)
                               (before_entries pdf top))
                      = calls (fold_left (entry pdf pageWidth) after
                                 (entry pdf pageWidth d s)))
        by (rewrite Hs, fold_left_split; reflexivity).
      destruct (entries_calls pdf pageWidth after (entry pdf pageWidth d s))
        as (added' & Hadd' & _ & _).
      destruct (entry_calls pdf pageWidth d s) as (y & Hy).
      rewrite Hfold, Hadd', Hy in Hcs'.
      eexists. rewrite Hcs'. repeat rewrite <- app_assoc. simpl. reflexivity.
Qed.

(** C7, as the code has it.  While [window.jspdf] is undefined
    [downloadPdf] makes no call on any document and returns after
    [setError]: the error becomes the not-ready message, replacing what was
    there, and [result], [query], [apiKey] and [loading] are as before. *)
Theorem export_unavailable_sets_error (st : AppState) :
  exists st',
    downloadPdf (number := number) None st = NotReady st' /\
    error st' = Some PdfNotReady /\
    result st' = result st /\
    query st' = query st /\ apiKey st' = apiKey st /\ loading st' = loading st.
Proof.
  exists (setError (Some PdfNotReady) st). split.
  - unfold downloadPdf. destruct (result st); reflexivity.
  - repeat split; reflexivity.
Qed.

End Document.

(** The stored object of a well-typed result reads back as that result, and
    with the library loaded [downloadPdf] draws it and leaves the state as
    it is. *)
Lemma as_of_ResearchResult (r : ResearchResult) :
  as_ResearchResult (of_ResearchResult r) = Some r.
Proof.
  destruct r as [t s srcs]. unfold as_ResearchResult, of_ResearchResult. simpl.
  assert (H : as_Sources (map of_Source srcs) = Some srcs).
  { induction srcs as [|[ti u] srcs IH]; [reflexivity|].
    simpl. unfold as_Source. simpl. simpl in IH. rewrite IH. reflexivity. }
  rewrite H. reflexivity.
Qed.

Lemma downloadPdf_draws {num : Type} {number : Number num}
  (pdf : jsPDF (num := num)) (st : AppState) (r : ResearchResult) :
  result st = Some (of_ResearchResult r) ->
  downloadPdf (Some pdf) st = Drawn st (export pdf r).
Proof.
  intros Hr. unfold downloadPdf. rewrite Hr, as_of_ResearchResult. reflexivity.
Qed.

(** A result without sources on an A4 page: title, summary, [save]. *)
Example bare_result_calls :
  export a4 bare_result
  = [setTextColor 0 0 0; setFontSize 20; setFont "helvetica" "bold";
     text "Tides" 105%Z 20%Z (Some (mkOptions (Some center) (Some 170%Z)));
     setFontSize 12; setFont "helvetica" "normal";
     textLines ["The moon."] 20%Z 40%Z;
     save "Tides.pdf"].
Proof. reflexivity. Qed.

(** C7, as stated, fails: after a research that succeeded, with no error
    shown, a click on the download button before the library has loaded
    sets the error. *)
Lemma export_unavailable_changes_error :
  exists st st',
    run (number := Z_Number) v8 (answers fenced_body) None initial
      [TypeApiKey "secret"; TypeQuery "tides"; ClickRun] = Some st /\
    error st = None /\
    step (number := Z_Number) v8 (answers fenced_body) None st ClickDownload
    = Some st' /\
    result st' = result st /\
    error st' = Some PdfNotReady /\
    error st' <> error st.
Proof.
  do 2 eexists. vm_compute. repeat split. discriminate.
Qed.

(** Twenty sources on an A4 page: the thirteenth entry starts a second
    page, and the entries read back are the twenty sources in order. *)
Example long_result_two_pages :
  pages (export a4 long_result) = 2 /\
  written_entries (export a4 long_result) = sources long_result /\
  written_links (export a4 long_result)
  = map uri (sources long_result).
Proof. vm_compute. repeat split. Qed.

Lemma export_long_result_case :
  let pageWidth := getWidth a4 [] in
  let top := head a4 pageWidth long_result in
  let cs := export a4 long_result in
  (sources long_result <> [] ->
     List.length (filter is_heading cs) = 1 /\
     exists rest,
       cs = calls top ++ break_calls a4 (lit 10) top
            ++ [setFontSize 14; setFont "helvetica" "bold";
                text "Sources" margin (break_cursor a4 (lit 10) top) None]
            ++ rest) /\
  written_entries cs = sources long_result.
Proof.
  pose proof (export_sources_section a4 long_result) as H.
  cbv zeta in *. destruct H as (_ & Hhead & Hent & _).
  split; [exact Hhead | exact Hent].
Defined.

End PdfFacts.

(* ===================================================================== *)
(** * More on the typewriter: bounds, termination, the cursor *)
(* ===================================================================== *)

Module MoreTypewriterFacts.

Import Typewriter TypewriterFacts Page Sample Sample2.

Section Reveal.

Context {char : Type}.

Implicit Types text : list char.

Lemma frames_stopped text (st : reveal) (sched : list flush) :
  live st = false -> frames_from text st sched = [].
Proof.
  intros Hst. induction sched as [|w sched IH]; simpl; [reflexivity|].
  unfold tick. rewrite Hst. simpl. exact IH.
Qed.

(** X1.  Whatever the text and however React schedules the updaters, after
    any number of firings the display has at most as many units as the
    counter, the counter is at most the length of the text, and no updater
    is left queued: the display never grows beyond the length of the text. *)
Theorem reveal_bounded text (sched : list flush) :
  length (displayedText (ticks text sched)) <= i (ticks text sched) /\
  i (ticks text sched) <= length text /\
  queued (ticks text sched) = 0.
Proof.
  induction sched as [|w sched (Hd & Hi & Hq)] using rev_ind.
  - unfold ticks, start. simpl. repeat split; lia.
  - rewrite ticks_app. simpl.
    destruct (tick_length text (ticks text sched) w Hq Hi Hd) as (Hq' & Hi' & Hd').
    auto.
Qed.

(** X2.  The interval never outlives the text by more than one firing:
    once it has fired more often than the text has units it has been
    cleared, under every schedule, and further firings change nothing. *)
Theorem interval_cleared text (sched : list flush) :
  length text < length sched ->
  live (ticks text sched) = false /\
  forall more, ticks text (sched ++ more) = ticks text sched.
Proof.
  intros Hlen.
  assert (Hlive : live (ticks text sched) = false).
  { destruct text as [|c text'] eqn:Et.
    - unfold ticks. rewrite tick_stopped; reflexivity.
    - rewrite <- Et in *. assert (Hpos : 0 < length text) by (subst; simpl; lia).
      rewrite <- (firstn_skipn (length text) sched).
      destruct (skipn (length text) sched) as [|w rest] eqn:Es.
      + apply (f_equal (@length flush)) in Es. rewrite length_skipn in Es.
        simpl in Es. lia.
      + assert (Hfl : length (firstn (length text) sched) = length text)
          by (rewrite length_firstn; lia).
        destruct (@ticks_counter char text (firstn (length text) sched) Hpos)
          as (Hi & Hl & Hq & _); [lia|].
        rewrite ticks_app. simpl.
        set (st := ticks text (firstn (length text) sched)) in *.
        assert (Hw : live (tick text st w) = false).
        { unfold tick. rewrite Hl. unfold callback.
          rewrite Hi, Hfl, Nat.ltb_irrefl. reflexivity. }
        rewrite tick_stopped by exact Hw. exact Hw. }
  split; [exact Hlive|].
  intros more. rewrite ticks_app. apply tick_stopped. exact Hlive.
Qed.

Lemma eager_frames_from text (m k : nat) :
  k <= length text -> length text - k <= m ->
  frames_from text (mkReveal k (firstn k text) 0 true) (repeat Eager m)
  = map (fun j => firstn j text) (seq (S k) (length text - k)).
Proof.
  revert k. induction m as [|m IH]; intros k Hk Hm.
  - replace (length text - k) with 0 by lia. reflexivity.
  - cbn [repeat frames_from]. unfold tick, callback. cbn [live i].
    destruct (Nat.ltb_spec k (length text)) as [Hlt|Hge].
    + unfold render, setDisplayedText, updater.
      cbn [i displayedText queued live Nat.iter andb].
      rewrite firstn_snoc_charAt by exact Hlt.
      rewrite IH by lia.
      replace (length text - k) with (S (length text - S k)) by lia.
      reflexivity.
    + cbn [andb]. replace (length text - k) with 0 by lia.
      apply frames_stopped. reflexivity.
Qed.

(** X3.  If React runs every updater inside the setter call, the frames
    shown for a non-empty text are its prefixes of length 1, 2, ... up to
    the whole text, each once and in this order, however long the interval
    is left to fire after that. *)
Theorem eager_frames text (m : nat) :
  0 < length text -> length text <= m ->
  frames text (repeat Eager m)
  = map (fun j => firstn j text) (seq 1 (length text)).
Proof.
  intros Hpos Hm. unfold frames.
  assert (Hs : start text = mkReveal 0 (firstn 0 text) 0 true)
    by (destruct text; [simpl in Hpos; lia | reflexivity]).
  rewrite Hs, (@eager_frames_from text m 0) by lia.
  rewrite Nat.sub_0_r. reflexivity.
Qed.

(** X4.  If React runs every updater inside the setter call, the cursor is
    shown after [k] firings exactly while [k] is less than the length of the
    text: it disappears with the last character and not before. *)
Theorem cursor_follows_eager_reveal text (k : nat) :
  0 < length text ->
  cursor text (ticks text (repeat Eager k)) = (k <? length text)%nat.
Proof.
  intros Hpos. unfold cursor.
  destruct (Nat.le_gt_cases k (length text)) as [Hle|Hgt].
  - rewrite eager_ticks by assumption. cbn [displayedText].
    rewrite length_firstn.
    destruct (Nat.ltb_spec k (length text));
      destruct (Nat.ltb_spec (Nat.min k (length text)) (length text)); lia || reflexivity.
  - replace k with (S (length text) + (k - S (length text))) by lia.
    rewrite repeat_app.
    rewrite (proj2 (@eager_reveal char text Hpos)). cbn [displayedText].
    rewrite Nat.ltb_irrefl. symmetry. apply Nat.ltb_ge. lia.
Qed.

(** X5.  If React runs the updater of the last character while rendering,
    the cursor never disappears: the interval is cleared with the cursor
    still shown, whatever happened before and whatever follows. *)
Theorem cursor_stays_when_last_deferred text (sched rest : list flush) :
  0 < length text -> S (length sched) = length text ->
  cursor text (ticks text (sched ++ Deferred :: rest)) = true.
Proof.
  intros Hpos Hlen. unfold cursor. apply Nat.ltb_lt.
  apply deferred_last_incomplete; assumption.
Qed.

(** X6.  For the empty text the effect installs no interval: nothing is
    ever displayed, no frame is shown and the cursor is not rendered. *)
Theorem empty_text_is_inert (sched : list flush) :
  ticks (@nil char) sched = mkReveal 0 [] 0 false /\
  frames (@nil char) sched = [] /\
  cursor (@nil char) (ticks (@nil char) sched) = false.
Proof.
  assert (H : ticks (@nil char) sched = mkReveal 0 [] 0 false)
    by (unfold ticks; apply tick_stopped; reflexivity).
  split; [exact H|]. split.
  - unfold frames. apply frames_stopped. reflexivity.
  - rewrite H. reflexivity.
Qed.

End Reveal.

Lemma interval_cleared_case :
  length hello < length (repeat (@Deferred) 6) /\
  live (ticks hello (repeat Deferred 6)) = false /\
  forall more, ticks hello (repeat Deferred 6 ++ more) = ticks hello (repeat Deferred 6).
Proof.
  split.
  - vm_compute. lia.
  - apply interval_cleared. vm_compute. lia.
Defined.

Lemma eager_frames_case :
  (0 < length hello /\ length hello <= 7) /\
  frames hello (repeat Eager 7)
  = map list_ascii_of_string ["h"; "he"; "hel"; "hell"; "hello"]%string.
Proof.
  split.
  - split; vm_compute; lia.
  - apply (@eager_frames ascii hello 7); vm_compute; lia.
Defined.

Lemma cursor_follows_case :
  0 < length hello /\
  cursor hello (ticks hello (repeat Eager 4)) = (4 <? length hello)%nat.
Proof.
  split.
  - vm_compute. lia.
  - apply cursor_follows_eager_reveal. vm_compute. lia.
Defined.

Lemma cursor_stays_case :
  (0 < length hello /\ S (length [Eager; Deferred; Deferred; Deferred]) = length hello) /\
  cursor hello (ticks hello ([Eager; Deferred; Deferred; Deferred]
                             ++ Deferred :: [Deferred; Deferred])) = true.
Proof.
  split.
  - split; vm_compute; [lia|reflexivity].
  - apply cursor_stays_when_last_deferred; vm_compute; [lia|reflexivity].
Defined.

End MoreTypewriterFacts.

(* ===================================================================== *)
(** * More on the fence: what the two patterns leave alone *)
(* ===================================================================== *)

Module FenceFacts.

Import Js App JsonShape JsonFacts JsFacts Sample Sample2.
Open Scope string_scope.

Local Abbreviation len := String.length.

Lemma append_assoc (a b c : string) : (a ++ b) ++ c = a ++ (b ++ c).
Proof. induction a as [|x a IH]; simpl; [reflexivity | rewrite IH; reflexivity]. Qed.

(** ** A value ends with a closing character *)

Lemma ends_after (pre s r : string) : ends s r -> ends (pre ++ s) r.
Proof.
  intros (p & c & -> & Hc). exists (pre ++ p), c.
  rewrite append_assoc. auto.
Qed.

Lemma ends_cons (x : ascii) (s r : string) : ends s r -> ends (String x s) r.
Proof. intros H. exact (ends_after (String x "") H). Qed.

Lemma skip_ws_app (s : string) : exists ws, s = ws ++ skip_ws s.
Proof.
  induction s as [|c s (ws & IH)]; simpl.
  - exists "". reflexivity.
  - destruct (is_json_ws c).
    + exists (String c ws). simpl. rewrite <- IH. reflexivity.
    + exists "". reflexivity.
Qed.

Lemma next_app (s : string) (c : ascii) (r : string) :
  next s = Some (c, r) -> exists pre, s = pre ++ String c r.
Proof.
  unfold next. destruct (skip_ws_app s) as (ws & Hs).
  destruct (skip_ws s) as [|c' r']; [discriminate|].
  intros E. injection E as <- <-. exists ws. exact Hs.
Qed.

Lemma expect_app (c : ascii) (s r : string) :
  expect c s = Some r -> exists pre, s = pre ++ String c r.
Proof.
  unfold expect. destruct (next s) as [[c' r']|] eqn:E; [|discriminate].
  destruct (Ascii.eqb c c') eqn:Ec; [|discriminate].
  apply Ascii.eqb_eq in Ec. subst c'.
  intros H. injection H as <-. exact (next_app _ E).
Qed.

Lemma strip_prefix_app (p s r : string) :
  strip_prefix p s = Some r -> s = p ++ r.
Proof.
  revert s. induction p as [|a p IH]; intros s; simpl.
  - intros E. injection E as <-. reflexivity.
  - destruct s as [|b s]; [discriminate|].
    destruct (Ascii.eqb a b) eqn:Eab; [|discriminate].
    apply Ascii.eqb_eq in Eab. subst b.
    intros E. rewrite (IH _ E). reflexivity.
Qed.

Lemma digit_closes (c : ascii) : is_digit c = true -> closes_value c = true.
Proof.
  intros H. unfold closes_value. rewrite H.
  repeat rewrite orb_true_r. reflexivity.
Qed.

Lemma digits_ends (s : string) (acc : Z) (n : nat) (v : Z) (n' : nat) (r : string) :
  digits acc n s = (v, n', r) ->
  (n' = n /\ r = s) \/ (n < n' /\ ends s r).
Proof.
  revert acc n. induction s as [|c s IH]; intros acc n; simpl.
  - intros E. injection E as _ <- <-. left. auto.
  - destruct (digit_of c) eqn:Ed.
    + intros E. right. destruct (IH _ _ E) as [[-> ->]|[Hlt He]].
      * split; [lia|]. exists "", c. split; [reflexivity|].
        apply digit_closes. unfold is_digit. rewrite Ed. reflexivity.
      * split; [lia|]. apply ends_cons. exact He.
    + intros E. injection E as _ <- <-. left. auto.
Qed.

Lemma int_part_ends (s : string) (v : Z) (r : string) :
  int_part s = Some (v, r) -> ends s r.
Proof.
  unfold int_part. destruct s as [|c s]; [discriminate|].
  destruct (Ascii.eqb c "0") eqn:E0.
  - apply Ascii.eqb_eq in E0. subst c. intros E. injection E as _ <-.
    exists "", "0"%char. split; reflexivity.
  - destruct (digits 0 0 (String c s)) as [[v' n'] r'] eqn:D.
    destruct n'; [discriminate|].
    intros E. injection E as _ <-.
    destruct (digits_ends _ _ _ D) as [[Hn _]|[_ He]]; [discriminate|exact He].
Qed.

Lemma frac_part_ends (iv : Z) (s : string) (v : Z) (n : nat) (r : string) :
  frac_part iv s = Some (v, n, r) -> r = s \/ ends s r.
Proof.
  unfold frac_part. destruct s as [|c s]; [intros E; injection E as _ _ <-; auto|].
  destruct (Ascii.eqb c ".").
  - destruct (digits iv 0 s) as [[v' n'] r'] eqn:D.
    destruct n'; [discriminate|].
    intros E. injection E as _ _ <-. right.
    destruct (digits_ends _ _ _ D) as [[Hn _]|[_ He]]; [discriminate|].
    apply ends_cons. exact He.
  - intros E. injection E as _ _ <-. auto.
Qed.

Lemma exp_sign_app (s : string) (b : bool) (r : string) :
  exp_sign s = (b, r) -> exists pre, s = pre ++ r.
Proof.
  unfold exp_sign. destruct s as [|c s]; [intros E; injection E as _ <-; exists ""; reflexivity|].
  destruct (Ascii.eqb c "-");
    [intros E; injection E as _ <-; exists (String c ""); reflexivity|].
  destruct (Ascii.eqb c "+"); intros E; injection E as _ <-;
    [exists (String c "") | exists ""]; reflexivity.
Qed.

Lemma exp_part_ends (s : string) (v : Z) (r : string) :
  exp_part s = Some (v, r) -> r = s \/ ends s r.
Proof.
  unfold exp_part. destruct s as [|c s]; [intros E; injection E as _ <-; auto|].
  destruct (Ascii.eqb c "e" || Ascii.eqb c "E").
  - destruct (exp_sign s) as [b r1] eqn:Es.
    destruct (exp_sign_app _ Es) as (pre & Hpre).
    destruct (digits 0 0 r1) as [[v' n'] r'] eqn:D.
    destruct n'; [discriminate|].
    intros E. injection E as _ <-. right.
    destruct (digits_ends _ _ _ D) as [[Hn _]|[_ He]]; [discriminate|].
    apply ends_cons. rewrite Hpre. apply ends_after. exact He.
  - intros E. injection E as _ <-. auto.
Qed.

Lemma parse_number_ends (s : string) (v : json) (r : string) :
  parse_number s = Some (v, r) -> ends s r.
Proof.
  unfold parse_number.
  destruct (sign_part s) as [b s1] eqn:E1.
  assert (H1 : exists pre, s = pre ++ s1).
  { unfold sign_part in E1. destruct s as [|c s]; [injection E1 as _ <-; exists ""; reflexivity|].
    destruct (Ascii.eqb c "-"); injection E1 as _ <-;
      [exists (String c "") | exists ""]; reflexivity. }
  destruct H1 as (pre1 & ->).
  destruct (int_part s1) as [[iv s2]|] eqn:E2; [|discriminate].
  apply int_part_ends in E2.
  destruct (frac_part iv s2) as [[[mv fd] s3]|] eqn:E3; [|discriminate].
  apply frac_part_ends in E3.
  destruct (exp_part s3) as [[ev s4]|] eqn:E4; [|discriminate].
  apply exp_part_ends in E4.
  intros E. injection E as _ <-. apply ends_after.
  assert (H3 : ends s1 s3).
  { destruct E3 as [->|(p & c & -> & Hc)]; [exact E2|].
    destruct E2 as (p2 & c2 & -> & _).
    exists (p2 ++ String c2 p), c. rewrite append_assoc. auto. }
  destruct E4 as [->|(p & c & -> & Hc)]; [exact H3|].
  destruct H3 as (p3 & c3 & -> & _).
  exists (p3 ++ String c3 p), c. rewrite append_assoc. auto.
Qed.

Lemma string_body_app (s : string) (us : list unit16) (r : string) :
  string_body s = Some (us, r) -> exists pre, s = pre ++ String dquote r.
Proof.
  remember (len s) as n eqn:Hn. revert s us r Hn.
  induction n as [n IH] using lt_wf_ind. intros s us r Hn.
  destruct s as [|c s]; [discriminate|]. simpl in Hn.
  cbn [string_body].
  destruct (Ascii.eqb c dquote) eqn:Eq.
  { apply Ascii.eqb_eq in Eq. subst c.
    intros E. injection E as _ <-. exists "". reflexivity. }
  destruct (Ascii.eqb c "\").
  - destruct s as [|e s1]; [discriminate|]. simpl in Hn.
    assert (Hsimple : forall code,
      match string_body s1 with
      | Some (us0, rest) => Some (Escaped code :: us0, rest)
      | None => None
      end = Some (us, r) ->
      exists pre, String c (String e s1) = pre ++ String dquote r).
    { intros code. destruct (string_body s1) as [[us0 rest]|] eqn:E0; [|discriminate].
      intros E. injection E as _ <-.
      destruct (IH (len s1) ltac:(lia) s1 us0 rest eq_refl E0) as (pre & ->).
      exists (String c (String e pre)). reflexivity. }
    repeat (match goal with
            | |- (if ?b then _ else _) = _ -> _ =>
                destruct b; [first [apply Hsimple | idtac]|]
            end); try discriminate.
    destruct s1 as [|h1 [|h2 [|h3 [|h4 r2]]]]; try discriminate.
    destruct (hex4 h1 h2 h3 h4); [|discriminate].
    destruct (string_body r2) as [[us0 rest]|] eqn:E0; [|discriminate].
    intros E. injection E as _ <-.
    destruct (IH (len r2) ltac:(simpl in Hn; lia) r2 us0 rest eq_refl E0) as (pre & ->).
    exists (String c (String e (String h1 (String h2 (String h3 (String h4 pre)))))).
    reflexivity.
  - destruct (nat_of_ascii c <? 32)%nat; [discriminate|].
    destruct (string_body s) as [[us0 rest]|] eqn:E0; [|discriminate].
    intros E. injection E as _ <-.
    destruct (IH (len s) ltac:(lia) s us0 rest eq_refl E0) as (pre & ->).
    exists (String c pre). reflexivity.
Qed.

Lemma ends_char (pre : string) (c : ascii) (r : string) :
  closes_value c = true -> ends (pre ++ String c r) r.
Proof. intros H. exists pre, c. auto. Qed.

Lemma parse_string_ends (s str r : string) :
  parse_string s = Some (str, r) -> ends s r.
Proof.
  unfold parse_string. destruct (string_body s) as [[us rest]|] eqn:E; [|discriminate].
  intros H. injection H as _ <-.
  destruct (string_body_app _ E) as (pre & ->). apply ends_char. reflexivity.
Qed.

(** Whatever the three readers accept ends with a closing character. *)
Lemma parse_ends (fuel : nat) :
  (forall s v r, parse_value fuel s = Some (v, r) -> ends s r) /\
  (forall acc s v r, parse_elements fuel acc s = Some (v, r) -> ends s r) /\
  (forall acc s v r, parse_members fuel acc s = Some (v, r) -> ends s r).
Proof.
  induction fuel as [|fuel (IHv & IHe & IHm)].
  - repeat split; intros; discriminate.
  - split; [|split].
    + intros s v r. rewrite parse_value_S.
      destruct (next s) as [[c r0]|] eqn:En; [|discriminate].
      destruct (next_app _ En) as (pre & ->).
      destruct (Ascii.eqb c "{").
      { destruct (expect "}" r0) as [r'|] eqn:Ex.
        - destruct (expect_app _ _ Ex) as (p & ->).
          intros E. injection E as _ <-.
          apply ends_after, ends_cons, ends_char. reflexivity.
        - intros E. apply ends_after, ends_cons. exact (IHm _ _ _ _ E). }
      destruct (Ascii.eqb c "[").
      { destruct (expect "]" r0) as [r'|] eqn:Ex.
        - destruct (expect_app _ _ Ex) as (p & ->).
          intros E. injection E as _ <-.
          apply ends_after, ends_cons, ends_char. reflexivity.
        - intros E. apply ends_after, ends_cons. exact (IHe _ _ _ _ E). }
      destruct (Ascii.eqb c dquote).
      { destruct (parse_string r0) as [[str r']|] eqn:Es; [|discriminate].
        intros E. injection E as _ <-.
        apply ends_after, ends_cons. exact (parse_string_ends _ Es). }
      destruct (Ascii.eqb c "t").
      { destruct (strip_prefix "rue" r0) as [r'|] eqn:Ep; [|discriminate].
        rewrite (strip_prefix_app _ _ Ep). intros E. injection E as _ <-.
        apply ends_after, ends_cons. exists "ru", "e"%char. split; reflexivity. }
      destruct (Ascii.eqb c "f").
      { destruct (strip_prefix "alse" r0) as [r'|] eqn:Ep; [|discriminate].
        rewrite (strip_prefix_app _ _ Ep). intros E. injection E as _ <-.
        apply ends_after, ends_cons. exists "als", "e"%char. split; reflexivity. }
      destruct (Ascii.eqb c "n").
      { destruct (strip_prefix "ull" r0) as [r'|] eqn:Ep; [|discriminate].
        rewrite (strip_prefix_app _ _ Ep). intros E. injection E as _ <-.
        apply ends_after, ends_cons. exists "ul", "l"%char. split; reflexivity. }
      intros E. apply ends_after. exact (parse_number_ends _ E).
    + intros acc s v r. rewrite parse_elements_S.
      destruct (parse_value fuel s) as [[v0 r0]|] eqn:Ev; [|discriminate].
      destruct (IHv _ _ _ Ev) as (p0 & c0 & -> & _).
      destruct (next r0) as [[c r1]|] eqn:En; [|discriminate].
      destruct (next_app _ En) as (p1 & ->).
      destruct (Ascii.eqb c ",").
      { intros E. apply ends_after, ends_cons, ends_after, ends_cons.
        exact (IHe _ _ _ _ E). }
      destruct (Ascii.eqb c "]") eqn:Ec; [|discriminate].
      apply Ascii.eqb_eq in Ec. subst c.
      intros E. injection E as _ <-.
      apply ends_after, ends_cons, ends_char. reflexivity.
    + intros acc s v r. rewrite parse_members_S.
      destruct (expect dquote s) as [r0|] eqn:E0; [|discriminate].
      destruct (expect_app _ _ E0) as (p0 & ->).
      destruct (parse_string r0) as [[k r1]|] eqn:E1; [|discriminate].
      destruct (parse_string_ends _ E1) as (p1 & c1 & -> & _).
      destruct (expect ":" r1) as [r2|] eqn:E2; [|discriminate].
      destruct (expect_app _ _ E2) as (p2 & ->).
      destruct (parse_value fuel r2) as [[v0 r3]|] eqn:E3; [|discriminate].
      destruct (IHv _ _ _ E3) as (p3 & c3 & -> & _).
      destruct (next r3) as [[c r4]|] eqn:E4; [|discriminate].
      destruct (next_app _ E4) as (p4 & ->).
      destruct (Ascii.eqb c ",").
      { intros E.
        apply ends_after, ends_cons, ends_after, ends_cons, ends_after, ends_cons,
              ends_after, ends_cons, ends_after, ends_cons.
        exact (IHm _ _ _ _ E). }
      destruct (Ascii.eqb c "}") eqn:Ec; [|discriminate].
      apply Ascii.eqb_eq in Ec. subst c.
      intros E. injection E as _ <-.
      apply ends_after, ends_cons, ends_after, ends_cons, ends_after, ends_cons,
            ends_after, ends_cons, ends_char. reflexivity.
Qed.

Lemma closes_value_visible (c : ascii) :
  closes_value c = true -> is_json_ws c = false /\ c <> "`"%char.
Proof.
  destruct c as [[] [] [] [] [] [] [] []]; vm_compute;
    intros H; try discriminate H; (split; [reflexivity | discriminate]).
Qed.

Lemma last_nonws_blank (r : string) : skip_ws r = "" -> last_nonws r = None.
Proof.
  induction r as [|c r IH]; simpl; [reflexivity|].
  destruct (is_json_ws c) eqn:Ec; [|discriminate].
  intros H. rewrite (IH H). reflexivity.
Qed.

Lemma last_nonws_after (pre s : string) (c : ascii) :
  last_nonws s = Some c -> last_nonws (pre ++ s) = Some c.
Proof.
  intros H. induction pre as [|x pre IH]; simpl; [exact H|].
  rewrite IH. reflexivity.
Qed.

(** Every text that [JSON.parse] accepts ends, white space apart, with a
    closing character. *)
Lemma accepted_text_closes (t : string) (v : json) :
  JSON_parse t = Some v ->
  exists c, last_nonws t = Some c /\ closes_value c = true.
Proof.
  intros H. apply JSON_parse_adequate in H.
  destruct H as (fuel & r & Hp & Hr).
  destruct (proj1 (parse_ends fuel) _ _ _ Hp) as (pre & c & -> & Hc).
  exists c. split; [|exact Hc].
  apply last_nonws_after. simpl.
  rewrite (last_nonws_blank _ Hr).
  destruct (closes_value_visible _ Hc) as [-> _]. reflexivity.
Qed.

(** The closing pattern leaves a text that ends with a line feed as it is. *)
Lemma strip_close_line_feed (s : string) : strip_close (s ++ LF) = s ++ LF.
Proof.
  induction s as [|c s IH]; [reflexivity|].
  change (String c s ++ LF) with (String c (s ++ LF)).
  cbn [strip_close]. rewrite IH.
  destruct (String c (s ++ LF) =? "```") eqn:E; [|reflexivity].
  apply String.eqb_eq in E. exfalso.
  destruct s as [|a [|b [|d s]]]; simpl in E; discriminate E.
Qed.

Lemma strip_open_plain (s : string) : no_backtick s = true -> strip_open s = s.
Proof.
  unfold no_backtick. induction s as [|c s IH]; [reflexivity|].
  simpl list_ascii_of_string. cbn [forallb]. intros H.
  apply andb_true_iff in H. destruct H as [Hc Hs].
  cbn [strip_open strip_prefix].
  replace (Ascii.eqb "`" c) with false
    by (rewrite Ascii.eqb_sym; destruct (Ascii.eqb c "`"); [discriminate|reflexivity]).
  rewrite (IH Hs). reflexivity.
Qed.

Lemma strip_close_plain (s : string) : no_backtick s = true -> strip_close s = s.
Proof.
  unfold no_backtick. induction s as [|c s IH]; [reflexivity|].
  simpl list_ascii_of_string. cbn [forallb]. intros H.
  apply andb_true_iff in H. destruct H as [Hc Hs].
  cbn [strip_close]. rewrite (IH Hs).
  destruct (String c s =? "```") eqn:E; [|reflexivity].
  apply String.eqb_eq in E. injection E as -> _. discriminate Hc.
Qed.

(** X7.  An answer text in which no backtick occurs reaches [JSON.parse]
    unchanged: the two patterns of line 158 remove nothing from it.  (An
    answer that has a backtick somewhere, be it inside a string of bare
    JSON, is outside this statement; [JsFacts.strip_open_inside] shows one
    that is altered.) *)
Theorem bare_answer_is_parsed_as_is (t : string) :
  no_backtick t = true ->
  strip_fence t = t /\
  parse_content (JStr t)
  = match JSON_parse t with
    | Some v => inr v
    | None => inl (mkExn MalformedContent WeirdFormat)
    end.
Proof.
  intros H.
  assert (Hs : strip_fence t = t).
  { unfold strip_fence. rewrite (strip_open_plain _ H). apply strip_close_plain. exact H. }
  split; [exact Hs|]. unfold parse_content. rewrite Hs. reflexivity.
Qed.

(** X8.  A fenced answer with a line feed after the closing fence always
    fails with [MalformedContent], whatever is inside the fence: [$] in the
    closing pattern is the very end of the text, so the closing fence stays
    and no JSON text ends with a backtick. *)
Theorem fence_before_line_feed_is_malformed (inner : string) :
  strip_fence ("```json" ++ LF ++ inner ++ "```" ++ LF) = inner ++ "```" ++ LF /\
  JSON_parse (inner ++ "```" ++ LF) = None /\
  parse_content (JStr ("```json" ++ LF ++ inner ++ "```" ++ LF))
  = inl (mkExn MalformedContent WeirdFormat).
Proof.
  assert (Hs : strip_fence ("```json" ++ LF ++ inner ++ "```" ++ LF)
               = inner ++ "```" ++ LF).
  { unfold strip_fence.
    replace (strip_open ("```json" ++ LF ++ inner ++ "```" ++ LF))
      with ((inner ++ "```") ++ LF)
      by (rewrite append_assoc; reflexivity).
    rewrite strip_close_line_feed. apply append_assoc. }
  assert (Hp : JSON_parse (inner ++ "```" ++ LF) = None).
  { destruct (JSON_parse (inner ++ "```" ++ LF)) as [v|] eqn:E; [|reflexivity].
    destruct (accepted_text_closes _ E) as (c & Hl & Hc).
    assert (Hb : last_nonws (inner ++ "```" ++ LF) = Some "`"%char)
      by (apply last_nonws_after; reflexivity).
    rewrite Hb in Hl. injection Hl as <-. discriminate Hc. }
  split; [exact Hs|]. split; [exact Hp|].
  unfold parse_content. rewrite Hs, Hp. reflexivity.
Qed.

Lemma bare_answer_case :
  no_backtick (sq "{'topic':'Tides','summary':'The moon.'}") = true /\
  strip_fence (sq "{'topic':'Tides','summary':'The moon.'}")
  = sq "{'topic':'Tides','summary':'The moon.'}".
Proof.
  split.
  - reflexivity.
  - apply bare_answer_is_parsed_as_is. reflexivity.
Defined.

(** The whole call on a fenced answer with a line feed after the fence. *)
Example fenced_newline_fails :
  fst (startResearch v8 (answers fenced_newline_body) ready)
  = mkApp "tides" "secret" None false (Some WeirdFormat).
Proof. vm_compute. reflexivity. Qed.

End FenceFacts.

(* ===================================================================== *)
(** * More on [startResearch]: the other ways a call ends *)
(* ===================================================================== *)

Module MoreResearchFacts.

Import Js App Page Sample Sample2 JsFacts ResearchFacts.
Open Scope string_scope.

Section Research.

Variable wording : fault -> string.

Lemma settle_in_flight_failure (settled : fetched) (st : AppState) (e : exn) :
  attempt wording settled = inl e ->
  settle wording settled (in_flight st)
  = mkApp (query st) (apiKey st) None false (Some (shown e)).
Proof. intros H. unfold settle. rewrite H. reflexivity. Qed.

(** X9.  Whenever the run button is enabled, a click sends exactly one
    request, built from a topic and a credential that are not empty: the
    condition of the button implies the checks of [startResearch]. *)
Theorem enabled_click_sends (fetch : Request -> fetched) (st : AppState) :
  run_disabled st = false ->
  query st <> "" /\ apiKey st <> "" /\
  onClick wording fetch st
  = (settle wording (fetch (request st)) (in_flight st), [request st]).
Proof.
  intros H. unfold run_disabled in H.
  apply orb_false_iff in H. destruct H as [H Hk].
  apply orb_false_iff in H. destruct H as [Hl Hq].
  assert (Hq' : query st <> "")
    by (intros E; rewrite E in Hq; discriminate Hq).
  assert (Hk' : apiKey st <> "")
    by (intros E; rewrite E in Hk; discriminate Hk).
  repeat split; try assumption.
  unfold onClick, run_disabled. rewrite Hl, Hq, Hk. simpl.
  apply startResearch_valid; assumption.
Qed.

(** X10.  A response with a success status whose body parses but has no
    truthy first candidate (no [candidates] key, an empty list, a first
    entry that is [null], [false], [0] or the empty string) ends the call
    with the no-response message and no result. *)
Theorem no_candidate_is_no_response (response : Response) (data : json) :
  ok response = true ->
  JSON_parse (body response) = Some data ->
  data <> JNull ->
  truthy (opt_prop (prop data "candidates") "0") = false ->
  attempt wording (Resolved response) = inl (mkExn EmptyResponse NoResponse) /\
  forall st,
    settle wording (Resolved response) (in_flight st)
    = mkApp (query st) (apiKey st) None false (Some NoResponse).
Proof.
  intros Hok Hdata Hnull Hcand.
  assert (Ha : attempt wording (Resolved response)
               = inl (mkExn EmptyResponse NoResponse)).
  { unfold attempt. rewrite Hok, Hdata. cbn [negb].
    assert (Hm : member wording data "candidates" = inr (prop data "candidates"))
      by (destruct data; try reflexivity; congruence).
    rewrite Hm. unfold bind at 1.
    destruct (opt_prop (prop data "candidates") "0") as [c|]; [|reflexivity].
    rewrite Hcand. reflexivity. }
  split; [exact Ha|]. intros st.
  rewrite (settle_in_flight_failure _ _ Ha). reflexivity.
Qed.

(** X11.  A response with a success status whose body is not JSON, or is
    the JSON [null], ends the call with the engine's own wording of the
    [SyntaxError] or of the [TypeError] for reading [candidates] of [null]
    (or the unknown-error message when that wording is empty), not with the
    no-response message; no result is stored. *)
Theorem unreadable_body_shows_engine_error (response : Response) :
  ok response = true ->
  JSON_parse (body response) = None \/ JSON_parse (body response) = Some JNull ->
  exists f,
    (f = BadJson (body response) \/ f = ReadOfNull "candidates") /\
    attempt wording (Resolved response) = inl (engine wording f) /\
    forall st,
      settle wording (Resolved response) (in_flight st)
      = mkApp (query st) (apiKey st) None false
          (Some (if wording f =? "" then UnknownError else wording f)).
Proof.
  intros Hok [Hb|Hb].
  - exists (BadJson (body response)).
    assert (Ha : attempt wording (Resolved response)
                 = inl (engine wording (BadJson (body response))))
      by (unfold attempt; rewrite Hok, Hb; reflexivity).
    split; [left; reflexivity|]. split; [exact Ha|]. intros st.
    rewrite (settle_in_flight_failure _ _ Ha). reflexivity.
  - exists (ReadOfNull "candidates").
    assert (Ha : attempt wording (Resolved response)
                 = inl (engine wording (ReadOfNull "candidates")))
      by (unfold attempt; rewrite Hok, Hb; reflexivity).
    split; [right; reflexivity|]. split; [exact Ha|]. intros st.
    rewrite (settle_in_flight_failure _ _ Ha). reflexivity.
Qed.

(** X12.  A candidate whose answer text is missing, empty or not a string
    (a number, an object) ends the call with the weird-format message and
    no result: the missing text becomes the empty string, which is not
    JSON, and [replace] on a value that is not a string throws inside the
    inner [try]. *)
Theorem missing_text_is_malformed (response : Response) (data candidate : json) :
  ok response = true ->
  JSON_parse (body response) = Some data ->
  data <> JNull ->
  opt_prop (prop data "candidates") "0" = Some candidate ->
  truthy (Some candidate) = true ->
  (forall t, raw_text candidate = JStr t -> t = "") ->
  attempt wording (Resolved response) = inl (mkExn MalformedContent WeirdFormat) /\
  forall st,
    settle wording (Resolved response) (in_flight st)
    = mkApp (query st) (apiKey st) None false (Some WeirdFormat).
Proof.
  intros Hok Hdata Hnull Hcand Htruthy Htext.
  assert (Ha : attempt wording (Resolved response)
               = inl (mkExn MalformedContent WeirdFormat)).
  { rewrite (@attempt_candidate wording response data candidate) by assumption.
    unfold parse_content.
    destruct (raw_text candidate) as [| | |t| |] eqn:Hraw; try reflexivity.
    rewrite (Htext t eq_refl). reflexivity. }
  split; [exact Ha|]. intros st.
  rewrite (settle_in_flight_failure _ _ Ha). reflexivity.
Qed.

Lemma map_sources_null (attrs : list json) :
  existsb is_null attrs = true ->
  map_sources wording attrs = inl (engine wording (ReadOfNull "web")).
Proof.
  induction attrs as [|a attrs IH]; [discriminate|].
  cbn [existsb map_sources]. intros H.
  destruct a; try reflexivity; cbn [is_null orb] in H;
    unfold to_source, member, bind, ret; cbn;
    fold (map_sources wording attrs); rewrite (IH H); reflexivity.
Qed.

(** X13.  An answer that parsed is thrown away when the grounding metadata
    cannot be walked: if [groundingAttributions] is neither [null] nor an
    array, or is an array with a [null] entry, the call ends with the
    engine's [TypeError] and no result, although the answer itself was
    valid. *)
Theorem unusable_grounding_discards_answer
  (response : Response) (data candidate gm attributions : json)
  (text : string) (parsedContent : json) :
  ok response = true ->
  JSON_parse (body response) = Some data ->
  data <> JNull ->
  opt_prop (prop data "candidates") "0" = Some candidate ->
  truthy (Some candidate) = true ->
  raw_text candidate = JStr text ->
  JSON_parse (strip_fence text) = Some parsedContent ->
  prop candidate "groundingMetadata" = Some gm ->
  gm <> JNull ->
  prop gm "groundingAttributions" = Some attributions ->
  unusable_attributions attributions = true ->
  exists f,
    (f = NotAFunction "map" \/ f = ReadOfNull "web") /\
    attempt wording (Resolved response) = inl (engine wording f) /\
    forall st,
      result (settle wording (Resolved response) (in_flight st)) = None /\
      error (settle wording (Resolved response) (in_flight st))
      = Some (if wording f =? "" then UnknownError else wording f).
Proof.
  intros Hok Hdata Hnull Hcand Htruthy Hraw Hparse Hgm Hgnull Hattr Hbad.
  assert (Hop : opt_prop (prop candidate "groundingMetadata") "groundingAttributions"
                = Some attributions)
    by (rewrite Hgm; destruct gm; try exact Hattr; congruence).
  assert (Hex : exists f,
            (f = NotAFunction "map" \/ f = ReadOfNull "web") /\
            extract_sources wording candidate = inl (engine wording f)).
  { unfold extract_sources. rewrite Hop.
    destruct attributions as [| | | |attrs|]; try discriminate Hbad;
      try (exists (NotAFunction "map"); split; [left|]; reflexivity).
    exists (ReadOfNull "web"). split; [right; reflexivity|].
    cbn [unusable_attributions] in Hbad.
    rewrite (map_sources_null _ Hbad). reflexivity. }
  destruct Hex as (f & Hf & Hex). exists f. split; [exact Hf|].
  assert (Ha : attempt wording (Resolved response) = inl (engine wording f)).
  { rewrite (@attempt_candidate wording response data candidate) by assumption.
    rewrite Hraw. unfold parse_content. rewrite Hparse.
    unfold ret at 1. unfold bind at 1. rewrite Hex. reflexivity. }
  split; [exact Ha|]. intros st.
  rewrite (settle_in_flight_failure _ _ Ha). split; reflexivity.
Qed.

Lemma map_sources_shape (attrs mapped : list json) :
  map_sources wording attrs = inr mapped ->
  List.length mapped = List.length attrs /\
  Forall (fun s => exists t u, s = JObj [("title", t); ("uri", u)]) mapped.
Proof.
  revert mapped. induction attrs as [|a attrs IH]; intros mapped.
  - intros E. injection E as <-. split; [reflexivity | constructor].
  - cbn [map_sources].
    destruct (to_source wording a) as [e|src] eqn:Ea; [discriminate|].
    destruct (map_sources wording attrs) as [e|rest] eqn:Er; [discriminate|].
    unfold bind, ret. intros E. injection E as <-.
    destruct (IH rest eq_refl) as [Hl Hf].
    split; [simpl; rewrite Hl; reflexivity|].
    constructor; [|exact Hf].
    unfold to_source, member in Ea.
    destruct a; unfold bind, ret, throw in Ea; try discriminate Ea;
      injection Ea as <-; eexists; eexists; reflexivity.
Qed.

(** X14.  Whatever the types in the grounding metadata, every source that
    is extracted is an object with exactly a title and a URI that are both
    truthy, and there are at most as many sources as attributions. *)
Theorem extracted_sources_are_complete (candidate : json) (srcs : list json) :
  extract_sources wording candidate = inr srcs ->
  Forall complete_source srcs /\
  forall attrs,
    opt_prop (prop candidate "groundingMetadata") "groundingAttributions"
    = Some (JArr attrs) ->
    List.length srcs <= List.length attrs.
Proof.
  unfold extract_sources.
  destruct (opt_prop (prop candidate "groundingMetadata") "groundingAttributions")
    as [[| | | |attrs|]|]; unfold ret, throw; try discriminate;
    try (intros E; injection E as <-; split; [constructor | intros; discriminate]).
  destruct (map_sources wording attrs) as [e|mapped] eqn:Em; [discriminate|].
  unfold bind. intros E. injection E as <-.
  destruct (map_sources_shape _ Em) as [Hl Hf]. split.
  - apply Forall_forall. intros s Hin. apply filter_In in Hin.
    destruct Hin as [Hin Hc].
    rewrite Forall_forall in Hf. destruct (Hf s Hin) as (t & u & ->).
    exists t, u. split; [reflexivity|].
    unfold complete in Hc. cbn in Hc.
    apply andb_true_iff in Hc. destruct Hc as [Hu Ht]. split; assumption.
  - intros attrs' E. injection E as <-. rewrite <- Hl. apply filter_length_le.
Qed.

(** X15.  A call of [startResearch] never changes the topic or the
    credential, whether it is refused, fails or succeeds. *)
Theorem research_keeps_inputs (fetch : Request -> fetched) (st : AppState) :
  query (fst (startResearch wording fetch st)) = query st /\
  apiKey (fst (startResearch wording fetch st)) = apiKey st.
Proof.
  unfold startResearch, begin.
  destruct (apiKey st =? ""); [split; reflexivity|].
  destruct (query st =? ""); [split; reflexivity|].
  cbn [fst]. unfold settle.
  destruct (attempt wording (fetch (request st))); split; reflexivity.
Qed.

End Research.

(** ** Worked cases *)

Lemma enabled_click_case :
  run_disabled typed_in = false /\
  query typed_in <> "" /\ apiKey typed_in <> "" /\
  onClick v8 (answers fenced_body) typed_in
  = (settle v8 (answers fenced_body (request typed_in)) (in_flight typed_in),
     [request typed_in]).
Proof.
  split.
  - reflexivity.
  - apply enabled_click_sends. reflexivity.
Defined.

Lemma no_candidate_case :
  (ok (mkResponse 200 no_candidates_body) = true /\
   JSON_parse (body (mkResponse 200 no_candidates_body))
   = Some (data_of no_candidates_body) /\
   data_of no_candidates_body <> JNull /\
   truthy (opt_prop (prop (data_of no_candidates_body) "candidates") "0") = false) /\
  attempt v8 (Resolved (mkResponse 200 no_candidates_body))
  = inl (mkExn EmptyResponse NoResponse) /\
  forall st,
    settle v8 (Resolved (mkResponse 200 no_candidates_body)) (in_flight st)
    = mkApp (query st) (apiKey st) None false (Some NoResponse).
Proof.
  split.
  - repeat split; try (vm_compute; reflexivity). vm_compute. discriminate.
  - apply (@no_candidate_is_no_response v8 (mkResponse 200 no_candidates_body)
             (data_of no_candidates_body));
      try (vm_compute; reflexivity). vm_compute. discriminate.
Defined.

(** A first candidate that is a number too small for a double is [0] and
    so no candidate; a source whose title is such a number is left out
    ([ResearchFacts.citations_case]). *)
Example underflowing_candidate :
  fst (startResearch v8 (answers (sq "{'candidates':[1e-400]}")) ready)
  = mkApp "tides" "secret" None false (Some NoResponse) /\
  fst (startResearch v8 (answers (sq "{'candidates':[0.0e7]}")) ready)
  = mkApp "tides" "secret" None false (Some NoResponse) /\
  fst (startResearch v8 (answers (sq "{'candidates':[5e-324]}")) ready)
  = mkApp "tides" "secret" None false (Some WeirdFormat).
Proof. vm_compute. repeat split; reflexivity. Qed.

Lemma unreadable_body_case :
  (ok (mkResponse 200 html_body) = true /\
   (JSON_parse (body (mkResponse 200 html_body)) = None \/
    JSON_parse (body (mkResponse 200 html_body)) = Some JNull)) /\
  exists f,
    (f = BadJson (body (mkResponse 200 html_body)) \/ f = ReadOfNull "candidates") /\
    attempt v8 (Resolved (mkResponse 200 html_body)) = inl (engine v8 f) /\
    forall st,
      settle v8 (Resolved (mkResponse 200 html_body)) (in_flight st)
      = mkApp (query st) (apiKey st) None false
          (Some (if v8 f =? "" then UnknownError else v8 f)).
Proof.
  split.
  - split; [reflexivity | left; vm_compute; reflexivity].
  - apply unreadable_body_shows_engine_error;
      [reflexivity | left; vm_compute; reflexivity].
Defined.

(** The body [null] ends with the [TypeError] of line 148. *)
Example null_body_fails :
  fst (startResearch v8 (answers null_body) ready)
  = mkApp "tides" "secret" None false
      (Some "Cannot read properties of null (reading 'candidates')").
Proof. vm_compute. reflexivity. Qed.

Lemma missing_text_case :
  (ok (mkResponse 200 number_text_body) = true /\
   JSON_parse (body (mkResponse 200 number_text_body))
   = Some (data_of number_text_body) /\
   data_of number_text_body <> JNull /\
   opt_prop (prop (data_of number_text_body) "candidates") "0"
   = Some (candidate_of number_text_body) /\
   truthy (Some (candidate_of number_text_body)) = true /\
   (forall t, raw_text (candidate_of number_text_body) = JStr t -> t = "")) /\
  attempt v8 (Resolved (mkResponse 200 number_text_body))
  = inl (mkExn MalformedContent WeirdFormat) /\
  forall st,
    settle v8 (Resolved (mkResponse 200 number_text_body)) (in_flight st)
    = mkApp (query st) (apiKey st) None false (Some WeirdFormat).
Proof.
  split.
  - repeat split; try (vm_compute; reflexivity).
    + vm_compute. discriminate.
    + vm_compute. discriminate.
  - apply (@missing_text_is_malformed v8 (mkResponse 200 number_text_body)
             (data_of number_text_body) (candidate_of number_text_body));
      try (vm_compute; reflexivity); vm_compute; discriminate.
Defined.

(** A candidate without text ends the same way. *)
Example no_text_fails :
  fst (startResearch v8 (answers no_text_body) ready)
  = mkApp "tides" "secret" None false (Some WeirdFormat).
Proof. vm_compute. reflexivity. Qed.

Lemma unusable_grounding_case :
  (ok (mkResponse 200 bad_grounding_body) = true /\
   JSON_parse (body (mkResponse 200 bad_grounding_body))
   = Some (data_of bad_grounding_body) /\
   data_of bad_grounding_body <> JNull /\
   opt_prop (prop (data_of bad_grounding_body) "candidates") "0"
   = Some (candidate_of bad_grounding_body) /\
   truthy (Some (candidate_of bad_grounding_body)) = true /\
   raw_text (candidate_of bad_grounding_body) = JStr plain_text /\
   JSON_parse (strip_fence plain_text) = Some plain_parsed /\
   prop (candidate_of bad_grounding_body) "groundingMetadata"
   = Some (grounding_of bad_grounding_body) /\
   grounding_of bad_grounding_body <> JNull /\
   prop (grounding_of bad_grounding_body) "groundingAttributions"
   = Some (attributions_of bad_grounding_body) /\
   unusable_attributions (attributions_of bad_grounding_body) = true) /\
  exists f,
    (f = NotAFunction "map" \/ f = ReadOfNull "web") /\
    attempt v8 (Resolved (mkResponse 200 bad_grounding_body)) = inl (engine v8 f) /\
    forall st,
      result (settle v8 (Resolved (mkResponse 200 bad_grounding_body)) (in_flight st))
      = None /\
      error (settle v8 (Resolved (mkResponse 200 bad_grounding_body)) (in_flight st))
      = Some (if v8 f =? "" then UnknownError else v8 f).
Proof.
  split.
  - repeat split; try (vm_compute; reflexivity); vm_compute; discriminate.
  - apply (@unusable_grounding_discards_answer v8 (mkResponse 200 bad_grounding_body)
             (data_of bad_grounding_body) (candidate_of bad_grounding_body)
             (grounding_of bad_grounding_body) (attributions_of bad_grounding_body)
             plain_text plain_parsed);
      try (vm_compute; reflexivity); vm_compute; discriminate.
Defined.

(** A [null] among the attributions ends with the [TypeError] of line 169. *)
Example null_attribution_fails :
  fst (startResearch v8 (answers null_attribution_body) ready)
  = mkApp "tides" "secret" None false
      (Some "Cannot read properties of null (reading 'web')").
Proof. vm_compute. reflexivity. Qed.

Lemma extracted_sources_case :
  extract_sources v8 fenced_candidate
  = inr [of_Source (Pdf.mkSource "NOAA" "https://noaa.gov")] /\
  Forall complete_source [of_Source (Pdf.mkSource "NOAA" "https://noaa.gov")].
Proof.
  split.
  - vm_compute. reflexivity.
  - apply (@extracted_sources_are_complete v8 fenced_candidate).
    vm_compute. reflexivity.
Defined.

End MoreResearchFacts.

(* ===================================================================== *)
(** * The page as a whole: errors shown, results exported *)
(* ===================================================================== *)

Module SessionFacts.

Import Js App Page Sample Sample2 JsFacts ResearchFacts PdfFacts.
Open Scope string_scope.

Section Session.

Context {num : Type} {number : Pdf.Number num}.

Variable wording : fault -> string.
Variable fetch : Request -> fetched.
Variable jspdf : option (Pdf.jsPDF (num := num)).

Lemma shown_not_empty (e : exn) : shown e <> "".
Proof.
  unfold shown. destruct (message e =? "") eqn:E.
  - discriminate.
  - apply String.eqb_neq. exact E.
Qed.

Lemma banner_error (st : AppState) :
  banner st = error st <-> error st <> Some "".
Proof.
  unfold banner. destruct (error st) as [msg|]; [|split; [discriminate|reflexivity]].
  destruct (msg =? "") eqn:E.
  - apply String.eqb_eq in E. subst msg. split; [discriminate|congruence].
  - apply String.eqb_neq in E. split; [congruence|reflexivity].
Qed.

Lemma startResearch_error (st : AppState) :
  error st <> Some "" -> error (fst (startResearch wording fetch st)) <> Some "".
Proof.
  intros H. unfold startResearch, begin.
  destruct (apiKey st =? ""); [discriminate|].
  destruct (query st =? ""); [discriminate|].
  cbn [fst]. unfold settle.
  destruct (attempt wording (fetch (request st))) as [e|r]; cbn.
  - fold (shown e). intros E. injection E as E. exact (@shown_not_empty e E).
  - discriminate.
Qed.

Lemma step_error (st st' : AppState) (ev : event) :
  error st <> Some "" ->
  step wording fetch jspdf st ev = Some st' ->
  error st' <> Some "".
Proof.
  intros H. destruct ev as [k|q|key shiftKey| |]; cbn [step].
  - intros E. injection E as <-. exact H.
  - intros E. injection E as <-. destruct (textarea_disabled st); exact H.
  - intros E. injection E as <-. destruct (textarea_disabled st); [exact H|].
    unfold onKeyDown. destruct ((key =? "Enter") && negb shiftKey); [|exact H].
    apply startResearch_error. exact H.
  - intros E. injection E as <-. unfold onClick.
    destruct (run_disabled st); [exact H|]. apply startResearch_error. exact H.
  - destruct (result st) as [r|] eqn:Hr.
    + unfold downloadPdf. rewrite Hr. destruct jspdf as [pdf|].
      * destruct (as_ResearchResult r); [|discriminate].
        intros E. injection E as <-. exact H.
      * intros E. injection E as <-. discriminate.
    + intros E. injection E as <-. exact H.
Qed.

Lemma settle_error (settled : fetched) (st : AppState) :
  error st <> Some "" -> error (settle wording settled st) <> Some "".
Proof.
  intros H. unfold settle.
  destruct (attempt wording settled) as [e|r]; cbn.
  - fold (shown e). intros E. injection E as E. exact (@shown_not_empty e E).
  - exact H.
Qed.

Lemma submit_error (v : Visit.visit) :
  error (Visit.page v) <> Some "" ->
  error (Visit.page (Visit.submit v)) <> Some "".
Proof.
  intros H. unfold Visit.submit, begin.
  destruct (apiKey (Visit.page v) =? ""); [discriminate|].
  destruct (query (Visit.page v) =? ""); discriminate.
Qed.

Lemma download_error (loaded : bool) (d : Visit.drawing) (st : AppState) :
  error st <> Some "" -> error (Visit.downloadPdf loaded d st) <> Some "".
Proof.
  intros H. unfold Visit.downloadPdf.
  destruct (result st); [|discriminate].
  destruct loaded; [|discriminate].
  destruct d; [exact H | discriminate | discriminate].
Qed.

Lemma act_error (v : Visit.visit) (a : Visit.action) :
  error (Visit.page v) <> Some "" ->
  error (Visit.page (Visit.act wording v a)) <> Some "".
Proof.
  intros H. destruct a as [k|q|key shiftKey| |settled| |d]; cbn [Visit.act].
  - exact H.
  - destruct (textarea_disabled (Visit.page v)); exact H.
  - destruct (textarea_disabled (Visit.page v)); [exact H|].
    destruct ((key =? "Enter") && negb shiftKey); [|exact H].
    apply submit_error. exact H.
  - destruct (run_disabled (Visit.page v)); [exact H|].
    apply submit_error. exact H.
  - destruct (Visit.awaited v); [exact H|]. apply settle_error. exact H.
  - exact H.
  - destruct (panel (Visit.page v)); [|exact H]. apply download_error. exact H.
Qed.

(** A request that is answered before anything else happens is a call of
    [startResearch]. *)
Lemma submit_then_settle (settled : fetched) (v : Visit.visit) :
  Visit.awaited v = 0 ->
  Visit.page (Visit.act wording (Visit.submit v) (Visit.Settles settled))
  = fst (startResearch wording (fun _ => settled) (Visit.page v)).
Proof.
  intros H0. unfold Visit.submit, startResearch.
  destruct (begin (Visit.page v)) as [st|st req]; cbn; rewrite ?H0; reflexivity.
Qed.

(** X16.  Whatever the visitor types, keys and clicks, however each request
    settles and whenever, whether and when the script of the PDF library
    loads, and whether the calls of the library return or throw (an [Error]
    with any message, or anything else), an error that is set is never the
    empty string, so the banner of line 315 shows every error the page has
    set. *)
Theorem every_error_is_shown (l : list Visit.action) :
  error (Visit.page (Visit.acts wording Visit.opened l)) <> Some "" /\
  banner (Visit.page (Visit.acts wording Visit.opened l))
  = error (Visit.page (Visit.acts wording Visit.opened l)).
Proof.
  assert (H : forall v, error (Visit.page v) <> Some "" ->
                        error (Visit.page (Visit.acts wording v l)) <> Some "").
  { induction l as [|a l IH]; intros v Hv; [exact Hv|].
    cbn [Visit.acts fold_left]. apply IH. apply act_error. exact Hv. }
  assert (H0 : error (Visit.page (Visit.acts wording Visit.opened l)) <> Some "")
    by (apply H; discriminate).
  split; [exact H0 | apply banner_error; exact H0].
Qed.

(** Where [App.downloadPdf] says what a call does, the call with its
    [catch] does the same. *)
Lemma downloadPdf_agrees (st : AppState) :
  let loaded := match jspdf with Some _ => true | None => false end in
  match downloadPdf jspdf st with
  | NotReady st' => forall d, Visit.downloadPdf loaded d st = st'
  | Drawn st' _ => Visit.downloadPdf loaded Visit.Returns st = st'
  | Untyped => True
  end.
Proof.
  unfold downloadPdf, Visit.downloadPdf.
  destruct (result st) as [r|]; [|intros d; reflexivity].
  destruct jspdf as [pdf|]; [|intros d; reflexivity].
  destruct (as_ResearchResult r); [reflexivity | exact I].
Qed.

Lemma as_Sources_of (srcs : list Pdf.Source) :
  as_Sources (map of_Source srcs) = Some srcs.
Proof.
  induction srcs as [|[t u] srcs IH]; [reflexivity|].
  cbn [map as_Sources]. unfold as_Source at 1. cbn. rewrite IH. reflexivity.
Qed.

(** X17.  A parsed answer that is an object with a string [topic] and a
    string [summary], stored with well-typed sources, is a
    [ResearchResult] whatever other keys the answer has (also a [sources]
    key of its own): with the library loaded [downloadPdf] draws that
    topic, that summary and those sources and, when the calls of the
    library return, leaves the state, an error that is shown included, as
    it is. *)
Theorem typed_answer_is_exported
  (props : list (string * json)) (t s : string) (srcs : list Pdf.Source)
  (pdf : Pdf.jsPDF (num := num)) (st : AppState) :
  lookup "topic" props = Some (JStr t) ->
  lookup "summary" props = Some (JStr s) ->
  result st = Some (assemble (JObj props) (map of_Source srcs)) ->
  as_ResearchResult (assemble (JObj props) (map of_Source srcs))
  = Some (Pdf.mkResult t s srcs) /\
  downloadPdf (Some pdf) st = Drawn st (Pdf.export pdf (Pdf.mkResult t s srcs)).
Proof.
  intros Ht Hs Hr.
  assert (Has : as_ResearchResult (assemble (JObj props) (map of_Source srcs))
                = Some (Pdf.mkResult t s srcs)).
  { unfold as_ResearchResult, assemble. cbn [prop spread].
    rewrite (@lookup_assign_other "sources" "topic") by discriminate.
    rewrite (@lookup_assign_other "sources" "summary") by discriminate.
    rewrite lookup_assign_same, Ht, Hs. cbn [as_string].
    rewrite as_Sources_of. reflexivity. }
  split; [exact Has|].
  unfold downloadPdf. rewrite Hr, Has. reflexivity.
Qed.

End Session.

#[local] Existing Instance Pdf.Z_Number.

(** The library throws while it draws a stored result: the error of the
    [catch] sits next to the result and is shown.  Before the script has
    loaded the same click sets the other message. *)
Example failed_drawing_is_shown :
  let visited :=
    Visit.acts v8 Visit.opened
      [Visit.TypeApiKey "secret"; Visit.TypeQuery "tides"; Visit.ClickRun;
       Visit.ScriptLoads;
       Visit.Settles (answers fenced_body (request ready));
       Visit.ClickDownload (Visit.ThrowsError "Invalid arguments")] in
  banner (Visit.page visited)
  = Some "Something went wrong making the PDF: Invalid arguments" /\
  panel (Visit.page visited) = true /\
  banner (Visit.page
            (Visit.acts v8 Visit.opened
               [Visit.TypeApiKey "secret"; Visit.TypeQuery "tides"; Visit.ClickRun;
                Visit.Settles (answers fenced_body (request ready));
                Visit.ClickDownload Visit.Returns]))
  = Some PdfNotReady.
Proof. vm_compute. repeat split; reflexivity. Qed.

Lemma typed_answer_case :
  (lookup "topic" chatty_props = Some (JStr "Tides") /\
   lookup "summary" chatty_props = Some (JStr "The moon.") /\
   result (mkApp "tides" "secret"
             (Some (assemble (JObj chatty_props)
                      (map of_Source (Pdf.sources tides))))
             false (Some PdfNotReady))
   = Some (assemble (JObj chatty_props) (map of_Source (Pdf.sources tides)))) /\
  as_ResearchResult (assemble (JObj chatty_props) (map of_Source (Pdf.sources tides)))
  = Some (Pdf.mkResult "Tides" "The moon." (Pdf.sources tides)) /\
  downloadPdf (Some a4)
    (mkApp "tides" "secret"
       (Some (assemble (JObj chatty_props) (map of_Source (Pdf.sources tides))))
       false (Some PdfNotReady))
  = Drawn
      (mkApp "tides" "secret"
         (Some (assemble (JObj chatty_props) (map of_Source (Pdf.sources tides))))
         false (Some PdfNotReady))
      (Pdf.export a4 (Pdf.mkResult "Tides" "The moon." (Pdf.sources tides))).
Proof.
  split.
  - repeat split.
  - apply typed_answer_is_exported; reflexivity.
Defined.

End SessionFacts.

(* ===================================================================== *)
(** * More on the PDF: heading, links, pages, file name *)
(* ===================================================================== *)

Module MorePdfFacts.

Import Js App Page Sample Sample2 PdfFacts.
Import Pdf.
Open Scope string_scope.
Open Scope list_scope.

Section Document.

Context {num : Type} {number : Number num}.

Abbreviation is_save := (fun c : call (num := num) =>
  match c with save _ => true | _ => false end).

Abbreviation is_addPage := (fun c : call (num := num) =>
  match c with addPage => true | _ => false end).

(** The visible text of a link is its target. *)
Abbreviation link_shows_url := (fun c : call (num := num) =>
  match c with textWithLink t _ _ url => t = url | _ => True end).

Lemma written_links_app (a b : list (call (num := num))) :
  written_links (a ++ b) = written_links a ++ written_links b.
Proof.
  induction a as [|c a IH]; [reflexivity|].
  destruct c; simpl; rewrite IH; reflexivity.
Qed.

(** What the loop over the sources adds to the document. *)
Lemma entries_added (pdf : jsPDF (num := num)) (pageWidth : num)
  (srcs : list Source) (d : doc) :
  exists added,
    calls (fold_left (entry pdf pageWidth) srcs d) = calls d ++ added /\
    existsb is_heading added = false /\
    written_links added = map uri srcs /\
    Forall link_shows_url added /\
    filter is_save added = [] /\
    List.length (filter is_addPage added) <= List.length srcs.
Proof.
  revert d. induction srcs as [|s srcs IH]; intros d.
  - exists []. simpl. rewrite app_nil_r. repeat split; auto.
  - simpl fold_left.
    destruct (IH (entry pdf pageWidth d s)) as (added & Hc & Hh & Hl & Hu & Hs & Hp).
    destruct (entry_calls pdf pageWidth d s) as (y & Hy).
    rewrite Hc, Hy. repeat rewrite <- app_assoc.
    eexists. split; [reflexivity|].
    unfold break_calls. destruct (overflows pdf (lit 12) d); simpl;
      rewrite ?Hh, ?Hl, ?Hs; repeat split; auto;
      repeat (constructor; [exact I || reflexivity|]); try exact Hu; simpl; lia.
Qed.

(** The calls between the summary and [save]. *)
Lemma export_middle (pdf : jsPDF (num := num)) (r : ResearchResult) :
  exists mid,
    export pdf r
    = calls (head pdf (getWidth pdf []) r) ++ mid
      ++ [save (underscore_spaces (topic r) ++ ".pdf")%string] /\
    existsb is_heading mid = lists_sources r /\
    written_links mid = map uri (sources r) /\
    Forall link_shows_url mid /\
    filter is_save mid = [] /\
    List.length (filter is_addPage mid)
    <= match sources r with [] => 0 | _ :: _ => S (List.length (sources r)) end.
Proof.
  unfold export, lists_sources.
  destruct (sources r) as [|s0 srcs] eqn:Hsrc.
  - exists []. cbn [sources_section]. repeat split; auto.
  - unfold sources_section.
    destruct (entries_added pdf (getWidth pdf []) (s0 :: srcs)
                (before_entries pdf (head pdf (getWidth pdf []) r)))
      as (added & Hc & Hh & Hl & Hu & Hs & Hp).
    unfold emit. cbn [calls]. rewrite Hc, heading_calls.
    exists (break_calls pdf (lit 10) (head pdf (getWidth pdf []) r)
            ++ [setFontSize 14; setFont "helvetica" "bold";
                text "Sources" margin
                     (break_cursor pdf (lit 10) (head pdf (getWidth pdf []) r)) None;
                setFontSize 10; setFont "helvetica" "normal"]
            ++ added).
    split; [repeat rewrite <- app_assoc; reflexivity|].
    unfold break_calls.
    destruct (overflows pdf (lit 10) (head pdf (getWidth pdf []) r)); simpl;
      rewrite ?Hh, ?Hl, ?Hs; repeat split; auto;
      repeat (constructor; [exact I|]); try exact Hu; simpl in *; lia.
Qed.

Lemma head_calls (pdf : jsPDF (num := num)) (pageWidth : num) (r : ResearchResult) :
  exists x y width lines,
    calls (head pdf pageWidth r)
    = [setTextColor 0 0 0; setFontSize 20; setFont "helvetica" "bold";
       text (topic r) x margin (Some (mkOptions (Some center) (Some width)));
       setFontSize 12; setFont "helvetica" "normal";
       textLines lines margin y].
Proof. do 4 eexists. reflexivity. Qed.

(** X18.  The page and the PDF agree on the sources section: the exported
    document has a "Sources" heading exactly when the page lists sources,
    that is when the result has at least one. *)
Theorem heading_iff_sources_listed (pdf : jsPDF (num := num)) (r : ResearchResult) :
  existsb is_heading (export pdf r) = lists_sources r.
Proof.
  destruct (export_middle pdf r) as (mid & -> & Hh & _).
  destruct (head_calls pdf (getWidth pdf []) r) as (x & y & w & lines & ->).
  rewrite !existsb_app, Hh. simpl. apply orb_false_r.
Qed.

(** X19.  The links of the exported document are the URIs of the sources,
    each once and in their order, and the visible text of every link is the
    address it points to. *)
Theorem links_are_the_uris (pdf : jsPDF (num := num)) (r : ResearchResult) :
  written_links (export pdf r) = map uri (sources r) /\
  Forall link_shows_url (export pdf r).
Proof.
  destruct (export_middle pdf r) as (mid & -> & _ & Hl & Hu & _).
  destruct (head_calls pdf (getWidth pdf []) r) as (x & y & w & lines & ->).
  split.
  - rewrite !written_links_app, Hl. simpl. apply app_nil_r.
  - apply Forall_app. split; [repeat constructor|].
    apply Forall_app. split; [exact Hu | repeat constructor].
Qed.

(** X20.  A page is added only by the checks before the heading and before
    each entry: a document without sources has one page however long the
    topic and the summary are, and a document with [n] sources has at most
    [n + 2] pages. *)
Theorem pages_bounded (pdf : jsPDF (num := num)) (r : ResearchResult) :
  pages (export pdf r)
  <= match sources r with [] => 1 | _ :: _ => List.length (sources r) + 2 end.
Proof.
  unfold pages.
  destruct (export_middle pdf r) as (mid & -> & _ & _ & _ & _ & Hp).
  destruct (head_calls pdf (getWidth pdf []) r) as (x & y & w & lines & ->).
  rewrite !filter_app, !length_app. simpl.
  destruct (sources r); simpl in *; lia.
Qed.

(** X21.  Every export ends with exactly one [save], and nothing follows
    it; the file name is the topic with every white-space character, of
    Unicode as of ASCII, replaced by one underscore, followed by ".pdf".  No
    white-space character is left in it, it has at most four bytes more than
    the topic, and a topic without white space is kept as it is. *)
Theorem saved_once_under_the_topic (pdf : jsPDF (num := num)) (r : ResearchResult) :
  exists drawn name,
    export pdf r = drawn ++ [save name] /\
    filter is_save drawn = [] /\
    name = (underscore_spaces (topic r) ++ ".pdf")%string /\
    no_space name = true /\
    String.length name <= String.length (topic r) + 4 /\
    (no_space (topic r) = true -> name = (topic r ++ ".pdf")%string).
Proof.
  destruct (export_middle pdf r) as (mid & He & _ & _ & _ & Hs & _).
  destruct (head_calls pdf (getWidth pdf []) r) as (x & y & w & lines & Hh).
  exists (calls (head pdf (getWidth pdf []) r) ++ mid),
         (underscore_spaces (topic r) ++ ".pdf")%string.
  split; [rewrite He, app_assoc; reflexivity|].
  split; [rewrite filter_app, Hs, Hh; reflexivity|].
  split; [reflexivity|]. split; [|split].
  - apply JsFacts.replace_spaces_no_space; reflexivity.
  - rewrite JsFacts.length_append. unfold underscore_spaces.
    pose proof (JsFacts.replace_spaces_length (String.length (topic r)) (topic r)).
    simpl. lia.
  - intros H. unfold underscore_spaces.
    rewrite JsFacts.replace_spaces_clean; [reflexivity | apply le_n | exact H].
Qed.

End Document.

(** A topic with spaces, a tab and a line feed in it. *)
Example file_name_of_a_phrase :
  last (export a4 (mkResult ("The  history" ++ String "009" "of" ++ LF ++ "tides")
                     "The moon." []))
       addPage
  = save "The__history_of_tides.pdf".
Proof. vm_compute. reflexivity. Qed.

(** A topic with a no-break space (U+00A0) and a line separator (U+2028):
    each is one underscore in the file name. *)
Example file_name_beyond_ascii :
  last (export a4
          (mkResult ("High" ++ String "194" (String "160" "") ++ "tide"
                     ++ String "226" (String "128" (String "168" "")) ++ "s")
             "The moon." []))
       addPage
  = save "High_tide_s.pdf".
Proof. vm_compute. reflexivity. Qed.

End MorePdfFacts.

(* ===================================================================== *)
(** * The effect that loads the PDF library *)
(* ===================================================================== *)

Module MountFacts.

Import Mount.

Lemma removeChild_absent (node : nat) (children : list nat) :
  contains node children = false -> removeChild node children = children.
Proof.
  unfold contains, removeChild. induction children as [|n children IH]; [reflexivity|].
  simpl. destruct (n =? node)%nat; [discriminate|]. simpl.
  intros H. rewrite (IH H). reflexivity.
Qed.

Lemma contains_appended (node : nat) (children : list nat) :
  contains node (appendChild node children) = true.
Proof.
  unfold contains, appendChild. rewrite existsb_app. simpl.
  rewrite Nat.eqb_refl. simpl. apply orb_true_r.
Qed.

(** X22.  Mounting and unmounting the page leaves the children of the body
    as they were before (the script element is appended as the last child
    and removed again), while the document title stays "Inquestor AI"; and
    the cleanup on a body that no longer holds the script changes nothing
    instead of throwing. *)
Theorem mount_then_unmount (script : nat) (d : Document) :
  contains script (body d) = false ->
  body (mount script d) = (body d ++ [script])%list /\
  unmount script (mount script d) = mkDocument "Inquestor AI" (body d) /\
  unmount script d = d.
Proof.
  intros H.
  assert (Ha : appendChild script (body d) = (body d ++ [script])%list)
    by (unfold appendChild; fold (removeChild script (body d));
        rewrite (removeChild_absent _ _ H); reflexivity).
  split; [exact Ha|]. split.
  - unfold unmount, mount. cbn [body title].
    rewrite contains_appended. f_equal.
    rewrite Ha. unfold removeChild. rewrite filter_app. simpl.
    rewrite Nat.eqb_refl. simpl. rewrite app_nil_r.
    apply (removeChild_absent _ _ H).
  - unfold unmount. rewrite H. reflexivity.
Qed.

Lemma mount_case :
  contains 7 (body (mkDocument "Create Next App" [1; 2; 3])) = false /\
  body (mount 7 (mkDocument "Create Next App" [1; 2; 3])) = [1; 2; 3; 7] /\
  unmount 7 (mount 7 (mkDocument "Create Next App" [1; 2; 3]))
  = mkDocument "Inquestor AI" [1; 2; 3] /\
  unmount 7 (mkDocument "Create Next App" [1; 2; 3])
  = mkDocument "Create Next App" [1; 2; 3].
Proof.
  split.
  - reflexivity.
  - apply (mount_then_unmount 7 (mkDocument "Create Next App" [1; 2; 3])).
    reflexivity.
Defined.

End MountFacts.
